(** * Mirror pipeline of the MinIO client: difference, orchestration, scheduling

    A shallow embedding of the mirror pipeline of [mc]:
    - the listing difference feeding [deltaSourceTarget],
    - [deltaSourceTarget] and [matchExcludeOptions] (cmd/mirror-url.go, in the
      two revisions present in the tree),
    - the [ParallelManager]: [addWorker], [monitorProgress],
      [enoughMemForUpload], [doQueueTask], [newParallelManager].

    Go strings are byte strings and are rendered as [string]; fixed-width
    integers are rendered as [Z] with the wrap-around written out; channels
    are rendered by the sequence of messages sent through them; goroutines by
    an interleaving step function on an explicit state. *)

From Stdlib Require Import ZArith Lia Bool List Ascii String Sorted.
From Stdlib Require OrderedTypeEx.
From stdpp Require Import base list.
Import ListNotations.

Local Open Scope Z_scope.

(** ** Fixed-width integers *)

Module Int.

Definition uint64 (x : Z) : Z := x mod 2 ^ 64.
Definition uint32 (x : Z) : Z := x mod 2 ^ 32.
Definition int64 (x : Z) : Z := (x + 2 ^ 63) mod 2 ^ 64 - 2 ^ 63.

Definition is_uint64 (x : Z) : Prop := 0 <= x < 2 ^ 64.
Definition is_int64 (x : Z) : Prop := - 2 ^ 63 <= x < 2 ^ 63.

End Int.

(** ** Go's [strings] helpers used by the mirror code *)

Module Strings.

(** [strings.HasPrefix]. *)
Definition HasPrefix (s pre : string) : bool := String.prefix pre s.

(** [strings.TrimPrefix]: [s] without the leading [pre] when it starts with
    it, [s] unchanged otherwise. *)
Definition TrimPrefix (s pre : string) : string :=
  if HasPrefix s pre
  then String.substring (String.length pre)
         (String.length s - String.length pre)%nat s
  else s.

(** [strings.HasSuffix]. *)
Definition HasSuffix (s suf : string) : bool :=
  (String.length suf <=? String.length s)%nat
  && String.eqb
       (String.substring (String.length s - String.length suf)%nat
          (String.length suf) s)
       suf.

(** [string(r)] for a one-byte rune. *)
Definition of_rune (c : ascii) : string := String c EmptyString.

End Strings.

(** ** Content Difference Engine *)

Module Difference.

Inductive EntryKind := File | Directory.

(** Modelled from the spec: the listing entry of the data model (the
    declaration of the client content type is not among the sources). *)
Record ListingEntry := {
  key : string;
  size : Z;
  mtime : Z;
  kind : EntryKind;
  versionId : option string;
  etag : option string;
  metadata : list (string * string);
  deleteMarker : bool
}.

(** Modelled from the spec: one position of a listing, either an entry that
    was read or a read error at that position, tagged with the offending
    key. *)
Inductive ListingItem :=
| Listed (e : ListingEntry)
| Unreadable (k : string).

Definition itemKey (i : ListingItem) : string :=
  match i with
  | Listed e => key e
  | Unreadable k => k
  end.

(** Modelled from the spec: the tagged variant of difference events. *)
Inductive DiffEvent :=
| Identical (s t : ListingEntry)
| OnlyInSource (s : ListingEntry)
| OnlyInTarget (t : ListingEntry)
| TypeMismatch (s t : ListingEntry)
| SizeMismatch (s t : ListingEntry)
| MetadataMismatch (s t : ListingEntry)
| TimestampConflict (s t : ListingEntry)
| ListingError (k : string).

(** The key an event originates from (for a comparison event, the key of
    its source entry, which equals the key of its target entry). *)
Definition eventKey (e : DiffEvent) : string :=
  match e with
  | Identical s _ | TypeMismatch s _ | SizeMismatch s _
  | MetadataMismatch s _ | TimestampConflict s _ => key s
  | OnlyInSource s => key s
  | OnlyInTarget t => key t
  | ListingError k => k
  end.

(** The outcome of comparing two entries with the same key.  The spec
    leaves the comparison rules to a pluggable strategy, so the engine is
    parameterised by it. *)
Inductive Verdict :=
| Same | DiffersInType | DiffersInSize | DiffersInMetadata | DiffersInTime.

Definition strategy := ListingEntry -> ListingEntry -> Verdict.

Definition comparisonEvent (v : Verdict) (s t : ListingEntry) : DiffEvent :=
  match v with
  | Same => Identical s t
  | DiffersInType => TypeMismatch s t
  | DiffersInSize => SizeMismatch s t
  | DiffersInMetadata => MetadataMismatch s t
  | DiffersInTime => TimestampConflict s t
  end.

Definition isComparison (e : DiffEvent) : bool :=
  match e with
  | Identical _ _ | TypeMismatch _ _ | SizeMismatch _ _
  | MetadataMismatch _ _ | TimestampConflict _ _ => true
  | _ => false
  end.

(** Events for a position present on one side only. *)
Definition sourceOnly (i : ListingItem) : DiffEvent :=
  match i with
  | Listed e => OnlyInSource e
  | Unreadable k => ListingError k
  end.

Definition targetOnly (i : ListingItem) : DiffEvent :=
  match i with
  | Listed e => OnlyInTarget e
  | Unreadable k => ListingError k
  end.

(** Event for a key present on both sides. *)
Definition compareItems (classify : strategy) (s t : ListingItem) : DiffEvent :=
  match s, t with
  | Listed es, Listed et => comparisonEvent (classify es et) es et
  | Unreadable k, _ => ListingError k
  | _, Unreadable k => ListingError k
  end.

(** Modelled from the spec: the synchronized merge of section 4.2 (the
    difference routine itself is not among the sources).  One cursor per
    side; equal keys are classified and both cursors advance; a smaller
    source key gives [OnlyInSource] and advances the source cursor, a
    greater one gives [OnlyInTarget] and advances the target cursor; when a
    side is exhausted the rest of the other side is flushed in order; a read
    error is surfaced as [ListingError] for its key and the merge goes on. *)
Fixpoint difference (classify : strategy) (src tgt : list ListingItem)
  : list DiffEvent :=
  match src with
  | [] => List.map targetOnly tgt
  | s :: src' =>
      (fix scanTarget (tgt : list ListingItem) : list DiffEvent :=
         match tgt with
         | [] => List.map sourceOnly (s :: src')
         | t :: tgt' =>
             match String.compare (itemKey s) (itemKey t) with
             | Eq => compareItems classify s t :: difference classify src' tgt'
             | Lt => sourceOnly s :: difference classify src' tgt
             | Gt => targetOnly t :: scanTarget tgt'
             end
         end) tgt
  end.

(** Ascending lexicographic order on keys, and listings with unique keys in
    that order. *)
Definition keyLt (a b : string) : Prop := String.compare a b = Lt.

Definition ascending (l : list ListingItem) : Prop :=
  StronglySorted keyLt (List.map itemKey l).

(** A comparison strategy in the order the spec names the attributes:
    kind, size, checksum and time, metadata. *)
Definition kindEqb (a b : EntryKind) : bool :=
  match a, b with
  | File, File | Directory, Directory => true
  | _, _ => false
  end.

Definition pairEqb (a b : string * string) : bool :=
  String.eqb (fst a) (fst b) && String.eqb (snd a) (snd b).

Fixpoint metadataEqb (a b : list (string * string)) : bool :=
  match a, b with
  | [], [] => true
  | x :: a', y :: b' => pairEqb x y && metadataEqb a' b'
  | _, _ => false
  end.

Definition byAttributes : strategy := fun s t =>
  if negb (kindEqb (kind s) (kind t)) then DiffersInType
  else if negb (size s =? size t) then DiffersInSize
  else if negb (mtime s =? mtime t) then DiffersInTime
  else if negb (metadataEqb (metadata s) (metadata t)) then DiffersInMetadata
  else Same.

Definition entry (k : string) (sz : Z) : ListingEntry :=
  {| key := k; size := sz; mtime := 0; kind := File; versionId := None;
     etag := None; metadata := []; deleteMarker := false |}.

End Difference.

(** ** Mirror Orchestrator (cmd/mirror-url.go) *)

Module Mirror.

(** Modelled from the spec: the difference tags.  The declaration of
    [differType] is not among the sources; the constructors are the constants
    [deltaSourceTarget] names, which stand for the DiffEvent tags Identical
    ([differInNone]), TypeMismatch, SizeMismatch, MetadataMismatch,
    TimestampConflict ([differInAASourceMTime], called
    [differInMMSourceMTime] in the older revision), OnlyInSource
    ([differInFirst]) and OnlyInTarget ([differInSecond]).  [differInUnknown]
    is the zero value. *)
Inductive differType :=
| differInUnknown
| differInNone
| differInSize
| differInMetadata
| differInType
| differInFirst
| differInSecond
| differInAASourceMTime.

Abbreviation differInMMSourceMTime := differInAASourceMTime (only parsing).

(** Modelled from the spec: the error results of the mirror (the error
    constructors are declared outside the sources).  These are the errors
    [deltaSourceTarget] builds; [errExternal] stands for an error raised by a
    collaborator, and [Trace] records the call-site arguments added by
    [.Trace(...)]. *)
Inductive probeError :=
| errInvalidTarget (url : string)
| errOverWriteNotAllowed (url : string)
| errUnrecognizedDiffType (d : differType)
| errExternal (msg : string)
| Trace (e : probeError) (args : list string).

(** Modelled from the spec: a storage location, with the fields of the
    client URL the mirror code reads (its declaration is not among the
    sources). *)
Record ClientURL := {
  Host : string;
  Path : string;
  Separator : ascii
}.

Record ClientContent := {
  URL : ClientURL
}.

(** Modelled from the spec: the message of the difference stream, with the
    fields [deltaSourceTarget] reads (its declaration is not among the
    sources).  A nil pointer is [None]. *)
Record diffMessage := {
  FirstURL : string;
  SecondURL : string;
  Diff : differType;
  dmError : option probeError;
  firstContent : option ClientContent;
  secondContent : option ClientContent
}.

(** A message is classified by its [Diff] tag unless it carries an error, in
    which case it is a listing error whatever its tag. *)
Definition classified (m : diffMessage) (d : differType) : Prop :=
  dmError m = None /\ Diff m = d.

(** Modelled from the spec: the message sent to the consumer of the mirror,
    which carries either a task or an error result, with the fields
    [deltaSourceTarget] sets (its declaration is not among the sources).
    [ErrorCond] exists in the newer revision only; results of the older one
    leave it at the zero value. *)
Record URLs := {
  SourceAlias : string;
  SourceContent : option ClientContent;
  TargetAlias : string;
  TargetContent : option ClientContent;
  Error : option probeError;
  ErrorCond : differType
}.

(** The zero value of [URLs]. *)
Definition noURLs : URLs :=
  {| SourceAlias := ""; SourceContent := None; TargetAlias := "";
     TargetContent := None; Error := None; ErrorCond := differInUnknown |}.

Definition errorResult (e : probeError) (c : differType) : URLs :=
  {| SourceAlias := ""; SourceContent := None; TargetAlias := "";
     TargetContent := None; Error := Some e; ErrorCond := c |}.

Definition isSome {A} (o : option A) : bool :=
  match o with Some _ => true | None => false end.

(** Modelled from the spec: a task is a copy when it has a source entry
    and a removal when it has a target only; a message with [Error] set is
    an error result and no task. *)
Definition isErrorResult (u : URLs) : bool := isSome (Error u).

Definition isCopyTask (u : URLs) : bool :=
  negb (isErrorResult u) && isSome (SourceContent u).

Definition isRemoveTask (u : URLs) : bool :=
  negb (isErrorResult u) && negb (isSome (SourceContent u))
  && isSome (TargetContent u).

(** The collaborators of [deltaSourceTarget] that live outside the sources:
    URL parsing, alias expansion, client construction, the difference stream
    of two clients, path joining and the glob matcher of
    [minio/pkg/wildcard]. *)
Class Env := {
  newClientURL : string -> ClientURL;
  mustExpandAlias : string -> string * string;
  newClientFromAlias : string -> string -> option probeError;
  objectDifference : string -> string -> bool -> list diffMessage;
  urlJoinPath : string -> string -> string;
  wildcardMatch : string -> string -> bool
}.

(** [matchExcludeOptions]: some pattern of the list matches the suffix. *)
Fixpoint matchExcludeOptions `{Env} (excludeOptions : list string)
  (srcSuffix : string) : bool :=
  match excludeOptions with
  | [] => false
  | pattern :: rest =>
      if wildcardMatch pattern srcSuffix then true
      else matchExcludeOptions rest srcSuffix
  end.

(** The flags of [mirrorOptions] read by [deltaSourceTarget]; the remaining
    fields (encryption keys, checksums, storage class, ...) are not read by
    it. *)
Record mirrorOptions := {
  isFake : bool;
  isOverwrite : bool;
  activeActive : bool;
  isWatch : bool;
  isRemove : bool;
  isMetadata : bool;
  excludeOptions : list string
}.

(** A message is dropped by the exclude patterns when its source suffix or
    its target suffix matches one of them. *)
Definition excluded `{Env} (sourceURL targetURL : string)
  (patterns : list string) (m : diffMessage) : bool :=
  matchExcludeOptions patterns (Strings.TrimPrefix (FirstURL m) sourceURL)
  || matchExcludeOptions patterns (Strings.TrimPrefix (SecondURL m) targetURL).

(** The copy message built for a source entry: its target is the target
    root joined with the source suffix. *)
Definition copyOf `{Env} (sourceAlias targetAlias sourceURL targetURL : string)
  (diffMsg : diffMessage) : URLs :=
  let sourceSuffix := Strings.TrimPrefix (FirstURL diffMsg) sourceURL in
  let targetPath := urlJoinPath targetURL sourceSuffix in
  let sourceContent := firstContent diffMsg in
  let targetContent := Some {| URL := newClientURL targetPath |} in
  {| SourceAlias := sourceAlias; SourceContent := sourceContent;
     TargetAlias := targetAlias; TargetContent := targetContent;
     Error := None; ErrorCond := differInUnknown |}.

(** Roots as [deltaSourceTarget] prepares them: the separator is appended
    when missing. *)
Definition withSeparator `{Env} (url : string) : string :=
  let separator := Strings.of_rune (Separator (newClientURL url)) in
  if Strings.HasSuffix url separator then url else String.append url separator.

(** *** The current revision (options passed as [mirrorOptions]) *)

Module Current.

(** The body of the loop of [deltaSourceTarget]: what is sent on [URLsCh]
    for one message of the difference stream. *)
Definition deltaMessage `{Env} (sourceAlias targetAlias sourceURL targetURL : string)
  (opts : mirrorOptions) (diffMsg : diffMessage) : list URLs :=
  match dmError diffMsg with
  | Some e => [errorResult e differInUnknown]
  | None =>
      let srcSuffix := Strings.TrimPrefix (FirstURL diffMsg) sourceURL in
      if matchExcludeOptions (excludeOptions opts) srcSuffix then []
      else
        let tgtSuffix := Strings.TrimPrefix (SecondURL diffMsg) targetURL in
        if matchExcludeOptions (excludeOptions opts) tgtSuffix then []
        else
          match Diff diffMsg with
          | differInNone => []
          | differInType =>
              [errorResult (errInvalidTarget (SecondURL diffMsg)) differInUnknown]
          | differInSize | differInMetadata | differInAASourceMTime =>
              if negb (isOverwrite opts) && negb (isFake opts)
                 && negb (activeActive opts)
              then [errorResult (errOverWriteNotAllowed (SecondURL diffMsg))
                      (Diff diffMsg)]
              else [copyOf sourceAlias targetAlias sourceURL targetURL diffMsg]
          | differInFirst =>
              [copyOf sourceAlias targetAlias sourceURL targetURL diffMsg]
          | differInSecond =>
              if negb (isRemove opts) && negb (isFake opts) then []
              else [{| SourceAlias := ""; SourceContent := None;
                       TargetAlias := targetAlias;
                       TargetContent := secondContent diffMsg;
                       Error := None; ErrorCond := differInUnknown |}]
          | d =>
              [errorResult
                 (Trace (errUnrecognizedDiffType d)
                    [FirstURL diffMsg; SecondURL diffMsg]) d]
          end
  end.

(** [deltaSourceTarget]: the messages sent on [URLsCh], in order. *)
Definition deltaSourceTarget `{Env} (sourceURL targetURL : string)
  (opts : mirrorOptions) : list URLs :=
  let sourceURL := withSeparator sourceURL in
  let targetURL := withSeparator targetURL in
  let '(sourceAlias, sourceURL) := mustExpandAlias sourceURL in
  let '(targetAlias, targetURL) := mustExpandAlias targetURL in
  match newClientFromAlias sourceAlias sourceURL with
  | Some err =>
      [errorResult (Trace err [sourceAlias; sourceURL]) differInUnknown]
  | None =>
      match newClientFromAlias targetAlias targetURL with
      | Some err =>
          [errorResult (Trace err [targetAlias; targetURL]) differInUnknown]
      | None =>
          List.flat_map
            (deltaMessage sourceAlias targetAlias sourceURL targetURL opts)
            (objectDifference sourceURL targetURL (isMetadata opts))
      end
  end.

End Current.

(** *** The older revision (flags passed one by one, no active-active) *)

Module Legacy.

Definition deltaMessage `{Env} (sourceAlias targetAlias sourceURL targetURL : string)
  (isFake isOverwrite isRemove : bool) (excludeOptions : list string)
  (diffMsg : diffMessage) : list URLs :=
  match dmError diffMsg with
  | Some e => [errorResult e differInUnknown]
  | None =>
      let srcSuffix := Strings.TrimPrefix (FirstURL diffMsg) sourceURL in
      if matchExcludeOptions excludeOptions srcSuffix then []
      else
        let tgtSuffix := Strings.TrimPrefix (SecondURL diffMsg) targetURL in
        if matchExcludeOptions excludeOptions tgtSuffix then []
        else
          match Diff diffMsg with
          | differInNone => []
          | differInType =>
              [errorResult (errInvalidTarget (SecondURL diffMsg)) differInUnknown]
          | differInSize | differInMetadata | differInMMSourceMTime =>
              if negb isOverwrite && negb isFake
              then [errorResult (errOverWriteNotAllowed (SecondURL diffMsg))
                      differInUnknown]
              else [copyOf sourceAlias targetAlias sourceURL targetURL diffMsg]
          | differInFirst =>
              [copyOf sourceAlias targetAlias sourceURL targetURL diffMsg]
          | differInSecond =>
              if negb isRemove && negb isFake then []
              else [{| SourceAlias := ""; SourceContent := None;
                       TargetAlias := targetAlias;
                       TargetContent := secondContent diffMsg;
                       Error := None; ErrorCond := differInUnknown |}]
          | d =>
              [errorResult
                 (Trace (errUnrecognizedDiffType d)
                    [FirstURL diffMsg; SecondURL diffMsg]) differInUnknown]
          end
  end.

(** [deltaSourceTarget] of the older revision; the time reference only
    selects the listing and is part of the difference stream here. *)
Definition deltaSourceTarget `{Env} (sourceURL targetURL : string)
  (isFake isOverwrite isRemove isMetadata : bool)
  (excludeOptions : list string) : list URLs :=
  let sourceURL := withSeparator sourceURL in
  let targetURL := withSeparator targetURL in
  let '(sourceAlias, sourceURL) := mustExpandAlias sourceURL in
  let '(targetAlias, targetURL) := mustExpandAlias targetURL in
  match newClientFromAlias sourceAlias sourceURL with
  | Some err =>
      [errorResult (Trace err [sourceAlias; sourceURL]) differInUnknown]
  | None =>
      match newClientFromAlias targetAlias targetURL with
      | Some err =>
          [errorResult (Trace err [targetAlias; targetURL]) differInUnknown]
      | None =>
          List.flat_map
            (deltaMessage sourceAlias targetAlias sourceURL targetURL
               isFake isOverwrite isRemove excludeOptions)
            (objectDifference sourceURL targetURL isMetadata)
      end
  end.

End Legacy.

End Mirror.

(** ** A glob matcher and a sample environment for concrete runs *)

Module Sample.

Import Mirror.

(** ['*'] matches any run of bytes, ['?'] any single byte, every other byte
    itself. *)
Fixpoint deepMatch (pattern : list ascii) : list ascii -> bool :=
  match pattern with
  | [] => fun str => match str with [] => true | _ :: _ => false end
  | p :: pattern' =>
      if Ascii.eqb p "*" then
        fix star (str : list ascii) : bool :=
          deepMatch pattern' str
          || match str with [] => false | _ :: str' => star str' end
      else if Ascii.eqb p "?" then
        fun str => match str with [] => false | _ :: str' => deepMatch pattern' str' end
      else
        fun str =>
          match str with
          | [] => false
          | c :: str' => Ascii.eqb c p && deepMatch pattern' str'
          end
  end.

Definition globMatch (pattern name : string) : bool :=
  deepMatch (list_ascii_of_string pattern) (list_ascii_of_string name).

#[local] Instance env (stream : list diffMessage) : Env := {|
  newClientURL := fun s => {| Host := ""; Path := s; Separator := "/" |};
  mustExpandAlias := fun s => (EmptyString, s);
  newClientFromAlias := fun _ _ => None;
  objectDifference := fun _ _ _ => stream;
  urlJoinPath := String.append;
  wildcardMatch := globMatch
|}.

Definition content (path : string) : ClientContent :=
  {| URL := {| Host := ""; Path := path; Separator := "/" |} |}.

Definition message (first second : string) (d : differType) : diffMessage :=
  {| FirstURL := first; SecondURL := second; Diff := d; dmError := None;
     firstContent := if String.eqb first "" then None else Some (content first);
     secondContent := if String.eqb second "" then None else Some (content second) |}.

Definition options (fake overwrite remove aa : bool) (exclude : list string)
  : mirrorOptions :=
  {| isFake := fake; isOverwrite := overwrite; activeActive := aa;
     isWatch := false; isRemove := remove; isMetadata := false;
     excludeOptions := exclude |}.

(** The difference stream of source [{a, b}] against target [{b, c}] with
    [b] identical on both sides. *)
Definition scenarioStream : list diffMessage :=
  [message "play/src/a" "" differInFirst;
   message "play/src/b" "play/dst/b" differInNone;
   message "" "play/dst/c" differInSecond].

End Sample.

(** ** Admission Gate and Parallel Manager *)

Module Parallel.

Import Mirror.

(** Maximum number of parallel workers. *)
Definition maxParallelWorkers : Z := 128.

(** Monitor tick, in nanoseconds ([4 * time.Second]). *)
Definition monitorPeriod : Z := 4 * 1000000000.

(** What the manager reads from the Go runtime and the host: the number of
    CPUs, [runtime.GOMAXPROCS(0)] (the number of workers added per
    bandwidth monitoring), and [uint64(float64(available) * 0.8)], the
    budget for a given amount of available memory, which is computed in
    floating point and left abstract. *)
Class Runtime := {
  NumCPU : Z;
  defaultWorkerFactor : Z;
  memBudget : Z -> Z
}.

(** A task is a copy/mirror action that needs to be executed. *)
Record task := {
  fn : unit -> URLs;
  barrier : bool;
  uploadSize : Z
}.

Definition withBarrier (t : task) : task :=
  {| fn := fn t; barrier := true; uploadSize := uploadSize t |}.

(** [sync.RWMutex]: an exclusive hold or a number of shared holds.  An
    acquisition that has to wait is [None]; so is a release of a hold that
    is not there, which is a fatal error in Go. *)
Record RWMutex := {
  writer : bool;
  readers : nat
}.

Definition Lock (m : RWMutex) : option RWMutex :=
  if writer m then None
  else match readers m with
       | O => Some {| writer := true; readers := O |}
       | S _ => None
       end.

Definition RLock (m : RWMutex) : option RWMutex :=
  if writer m then None
  else Some {| writer := false; readers := S (readers m) |}.

Definition Unlock (m : RWMutex) : option RWMutex :=
  if writer m then Some {| writer := false; readers := readers m |} else None.

Definition RUnlock (m : RWMutex) : option RWMutex :=
  match readers m with
  | O => None
  | S n => Some {| writer := writer m; readers := n |}
  end.

(** The goroutine started by [addWorker], by the point of its loop it is at:
    waiting for a job, executing [t.fn()], sending the result, releasing the
    hold of the task, or gone after the queue was closed. *)
Inductive worker :=
| Waiting
| Running (t : task)
| Reporting (t : task) (r : URLs)
| Releasing (t : task)
| Exited.

(** The locals of the goroutine started by [monitorProgress]. *)
Record monitorState := {
  running : bool;
  prevSentBytes : Z;
  maxBandwidth : Z;
  retry : Z
}.

(** [ParallelManager], together with the goroutines it owns.  [queueCh] is
    unbuffered: it holds the tasks whose senders are blocked in
    [p.queueCh <- t]; [resultCh] holds the results sent so far;
    [stopMonitorCh] and [queueClosed] tell whether the channel was closed. *)
Record ParallelManager := {
  sentBytes : Z;
  wg : Z;
  barrierSync : RWMutex;
  workersNum : Z;
  queueCh : list task;
  queueClosed : bool;
  resultCh : list URLs;
  stopMonitorCh : bool;
  maxMem : Z;
  workers : list worker;
  monitor : monitorState
}.

Definition setSentBytes (v : Z) (p : ParallelManager) : ParallelManager :=
  {| sentBytes := v; wg := wg p; barrierSync := barrierSync p;
     workersNum := workersNum p; queueCh := queueCh p;
     queueClosed := queueClosed p; resultCh := resultCh p;
     stopMonitorCh := stopMonitorCh p; maxMem := maxMem p;
     workers := workers p; monitor := monitor p |}.

Definition setBarrierSync (v : RWMutex) (p : ParallelManager) : ParallelManager :=
  {| sentBytes := sentBytes p; wg := wg p; barrierSync := v;
     workersNum := workersNum p; queueCh := queueCh p;
     queueClosed := queueClosed p; resultCh := resultCh p;
     stopMonitorCh := stopMonitorCh p; maxMem := maxMem p;
     workers := workers p; monitor := monitor p |}.

Definition setQueueCh (v : list task) (p : ParallelManager) : ParallelManager :=
  {| sentBytes := sentBytes p; wg := wg p; barrierSync := barrierSync p;
     workersNum := workersNum p; queueCh := v;
     queueClosed := queueClosed p; resultCh := resultCh p;
     stopMonitorCh := stopMonitorCh p; maxMem := maxMem p;
     workers := workers p; monitor := monitor p |}.

Definition setQueueClosed (v : bool) (p : ParallelManager) : ParallelManager :=
  {| sentBytes := sentBytes p; wg := wg p; barrierSync := barrierSync p;
     workersNum := workersNum p; queueCh := queueCh p;
     queueClosed := v; resultCh := resultCh p;
     stopMonitorCh := stopMonitorCh p; maxMem := maxMem p;
     workers := workers p; monitor := monitor p |}.

Definition setResultCh (v : list URLs) (p : ParallelManager) : ParallelManager :=
  {| sentBytes := sentBytes p; wg := wg p; barrierSync := barrierSync p;
     workersNum := workersNum p; queueCh := queueCh p;
     queueClosed := queueClosed p; resultCh := v;
     stopMonitorCh := stopMonitorCh p; maxMem := maxMem p;
     workers := workers p; monitor := monitor p |}.

Definition setStopMonitorCh (v : bool) (p : ParallelManager) : ParallelManager :=
  {| sentBytes := sentBytes p; wg := wg p; barrierSync := barrierSync p;
     workersNum := workersNum p; queueCh := queueCh p;
     queueClosed := queueClosed p; resultCh := resultCh p;
     stopMonitorCh := v; maxMem := maxMem p;
     workers := workers p; monitor := monitor p |}.

Definition setWorkers (v : list worker) (p : ParallelManager) : ParallelManager :=
  {| sentBytes := sentBytes p; wg := wg p; barrierSync := barrierSync p;
     workersNum := workersNum p; queueCh := queueCh p;
     queueClosed := queueClosed p; resultCh := resultCh p;
     stopMonitorCh := stopMonitorCh p; maxMem := maxMem p;
     workers := v; monitor := monitor p |}.

Definition setMonitor (v : monitorState) (p : ParallelManager) : ParallelManager :=
  {| sentBytes := sentBytes p; wg := wg p; barrierSync := barrierSync p;
     workersNum := workersNum p; queueCh := queueCh p;
     queueClosed := queueClosed p; resultCh := resultCh p;
     stopMonitorCh := stopMonitorCh p; maxMem := maxMem p;
     workers := workers p; monitor := v |}.

(** [addWorker] creates a new worker to process tasks, unless the maximum
    number of workers is reached. *)
Definition addWorker (p : ParallelManager) : ParallelManager :=
  if maxParallelWorkers <=? workersNum p then p
  else
    {| sentBytes := sentBytes p; wg := wg p + 1; barrierSync := barrierSync p;
       workersNum := Int.uint32 (workersNum p + 1); queueCh := queueCh p;
       queueClosed := queueClosed p; resultCh := resultCh p;
       stopMonitorCh := stopMonitorCh p; maxMem := maxMem p;
       workers := workers p ++ [Waiting]; monitor := monitor p |}.

(** [for i := 0; i < n; i++ { p.addWorker() }]. *)
Definition addWorkers (n : Z) (p : ParallelManager) : ParallelManager :=
  Nat.iter (Z.to_nat n) addWorker p.

(** [Read] counts the bytes sent. *)
Definition Read (len : Z) (p : ParallelManager) : ParallelManager :=
  setSentBytes (Int.int64 (sentBytes p + len)) p.

(** [monitorProgress] starts the monitor with zeroed locals. *)
Definition monitorProgress (p : ParallelManager) : ParallelManager :=
  setMonitor
    {| running := true; prevSentBytes := 0; maxBandwidth := 0; retry := 0 |} p.

(** One firing of [ticker.C] in the monitor loop. *)
Definition monitorTick `{Runtime} (p : ParallelManager) : ParallelManager :=
  let m := monitor p in
  if negb (running m) then p
  else
    let sent := sentBytes p in
    let bandwidth := Int.int64 (sent - prevSentBytes m) in
    if bandwidth <=? maxBandwidth m then
      let retry' := retry m + 1 in
      if 2 <? retry' then
        setMonitor
          {| running := false; prevSentBytes := sent;
             maxBandwidth := maxBandwidth m; retry := retry' |} p
      else
        addWorkers defaultWorkerFactor
          (setMonitor
             {| running := true; prevSentBytes := sent;
                maxBandwidth := maxBandwidth m; retry := retry' |} p)
    else
      addWorkers defaultWorkerFactor
        (setMonitor
           {| running := true; prevSentBytes := sent;
              maxBandwidth := bandwidth; retry := 0 |} p).

(** The monitor takes the [stopMonitorCh] branch of its [select]. *)
Definition monitorQuit (p : ParallelManager) : option ParallelManager :=
  if stopMonitorCh p && running (monitor p) then
    Some (setMonitor
            {| running := false; prevSentBytes := prevSentBytes (monitor p);
               maxBandwidth := maxBandwidth (monitor p);
               retry := retry (monitor p) |} p)
  else None.

Inductive outcome (A : Type) :=
| Returns (a : A)
| Panics (msg : string).
Arguments Returns {A} a.
Arguments Panics {A} msg.

Definition partSize : Z := 128 * 1024 * 1024.

Definition estimateNeededMemoryForUpload (size : Z) : Z :=
  let parallel := size / partSize in
  if 3 <=? parallel then 3 * partSize else Int.uint64 size.

(** [enoughMemForUpload]; [uploadSize] is the [uint64] argument and [alloc]
    is [smem.Alloc] as read from the runtime at the call. *)
Definition enoughMemForUpload (p : ParallelManager) (alloc uploadSize : Z)
  : outcome bool :=
  if uploadSize <? 0 then Panics "unexpected size"
  else if (uploadSize =? 0) || (maxMem p =? 0) then Returns true
  else
    Returns
      (Int.uint64 (estimateNeededMemoryForUpload uploadSize + alloc)
       <? maxMem p).

(** The second half of [doQueueTask]: take the hold of the class of the
    task, then offer the task on [queueCh]. *)
Definition hold (p : ParallelManager) (t : task) : option ParallelManager :=
  match (if barrier t then Lock else RLock) (barrierSync p) with
  | None => None
  | Some m =>
      if queueClosed p then None
      else Some (setQueueCh (queueCh p ++ [t]) (setBarrierSync m p))
  end.

(** [doQueueTask]: a task for which there is not enough memory becomes a
    barrier task. *)
Definition doQueueTask (p : ParallelManager) (alloc : Z) (t : task)
  : option ParallelManager :=
  match enoughMemForUpload p alloc (Int.uint64 (uploadSize t)) with
  | Panics _ => None
  | Returns enough => hold p (if negb enough then withBarrier t else t)
  end.


Definition queueTaskWithBarrier (p : ParallelManager) (alloc : Z)
  (f : unit -> URLs) (size : Z) : option ParallelManager :=
  doQueueTask p alloc {| fn := f; barrier := true; uploadSize := size |}.

(** [newParallelManager]; [available] is the available memory reported by
    [mem.VirtualMemory()], [None] when that call fails. *)
Definition newParallelManager `{Runtime} (available : option Z) : ParallelManager :=
  let maxMem := match available with
                | Some a => memBudget a
                | None => 0
                end in
  let p := {| sentBytes := 0; wg := 0;
              barrierSync := {| writer := false; readers := O |};
              workersNum := 0; queueCh := []; queueClosed := false;
              resultCh := []; stopMonitorCh := false; maxMem := maxMem;
              workers := [];
              monitor := {| running := false; prevSentBytes := 0;
                            maxBandwidth := 0; retry := 0 |} |} in
  monitorProgress (addWorkers NumCPU p).

(** *** The worker loop, one step at a time *)

(** [t, ok := <-p.queueCh] with [ok]: worker [w] takes the task offered by
    the [k]-th blocked sender. *)
Definition workerReceive (w k : nat) (p : ParallelManager) : option ParallelManager :=
  match workers p !! w, queueCh p !! k with
  | Some Waiting, Some t =>
      Some (setWorkers (<[w := Running t]> (workers p))
              (setQueueCh (delete k (queueCh p)) p))
  | _, _ => None
  end.

(** [t.fn()] returns in worker [w]. *)
Definition workerReturn (w : nat) (p : ParallelManager) : option ParallelManager :=
  match workers p !! w with
  | Some (Running t) =>
      Some (setWorkers (<[w := Reporting t (fn t tt)]> (workers p)) p)
  | _ => None
  end.

(** [p.resultCh <- ...] goes through. *)
Definition workerReport (w : nat) (p : ParallelManager) : option ParallelManager :=
  match workers p !! w with
  | Some (Reporting t r) =>
      Some (setWorkers (<[w := Releasing t]> (workers p))
              (setResultCh (resultCh p ++ [r]) p))
  | _ => None
  end.

(** [p.barrierSync.Unlock()] for a barrier task, [RUnlock()] otherwise. *)
Definition workerRelease (w : nat) (p : ParallelManager) : option ParallelManager :=
  match workers p !! w with
  | Some (Releasing t) =>
      match (if barrier t then Unlock else RUnlock) (barrierSync p) with
      | Some m =>
          Some (setWorkers (<[w := Waiting]> (workers p)) (setBarrierSync m p))
      | None => None
      end
  | _ => None
  end.

(** [t, ok := <-p.queueCh] with [!ok]: no more tasks, [p.wg.Done()]. *)
Definition workerExit (w : nat) (p : ParallelManager) : option ParallelManager :=
  match workers p !! w with
  | Some Waiting =>
      if queueClosed p then
        Some {| sentBytes := sentBytes p; wg := wg p - 1;
                barrierSync := barrierSync p; workersNum := workersNum p;
                queueCh := queueCh p; queueClosed := queueClosed p;
                resultCh := resultCh p; stopMonitorCh := stopMonitorCh p;
                maxMem := maxMem p; workers := <[w := Exited]> (workers p);
                monitor := monitor p |}
      else None
  | _ => None
  end.

(** [stopAndWait], in its two moves: closing the queue, and, once
    [p.wg.Wait()] is through, closing [stopMonitorCh]. *)
Definition closeQueue (p : ParallelManager) : option ParallelManager :=
  if queueClosed p then None
  else match queueCh p with
       | [] => Some (setQueueClosed true p)
       | _ :: _ => None
       end.

Definition stopMonitor (p : ParallelManager) : option ParallelManager :=
  if queueClosed p && (wg p =? 0) && negb (stopMonitorCh p)
  then Some (setStopMonitorCh true p)
  else None.

(** *** Runs of the manager

    The moves of the goroutines around one manager.  A run is any
    interleaving of them from the state [newParallelManager] returns. *)
Inductive event :=
| Queue (t : task) (alloc : Z)
| Receive (w k : nat)
| Return (w : nat)
| Report (w : nat)
| Release (w : nat)
| Exit (w : nat)
| Sent (len : Z)
| Tick
| MonitorQuit
| CloseQueue
| StopMonitor.

Definition step `{Runtime} (e : event) (p : ParallelManager) : option ParallelManager :=
  match e with
  | Queue t alloc => doQueueTask p alloc t
  | Receive w k => workerReceive w k p
  | Return w => workerReturn w p
  | Report w => workerReport w p
  | Release w => workerRelease w p
  | Exit w => workerExit w p
  | Sent len => Some (Read len p)
  | Tick => if running (monitor p) then Some (monitorTick p) else None
  | MonitorQuit => monitorQuit p
  | CloseQueue => closeQueue p
  | StopMonitor => stopMonitor p
  end.

Fixpoint run `{Runtime} (es : list event) (p : ParallelManager) : option ParallelManager :=
  match es with
  | [] => Some p
  | e :: es' =>
      match step e p with
      | Some p' => run es' p'
      | None => None
      end
  end.

(** States of a run. *)
Definition reachable `{Runtime} (p : ParallelManager) : Prop :=
  exists available es, run es (newParallelManager available) = Some p.

(** The tasks a worker holds the admission of. *)
Definition held (w : worker) : list task :=
  match w with
  | Running t | Reporting t _ | Releasing t => [t]
  | Waiting | Exited => []
  end.

(** A worker is executing the function of a task. *)
Definition executing (p : ParallelManager) (w : nat) (t : task) : Prop :=
  workers p !! w = Some (Running t).

(** The worker count is within its bounds. *)
Definition countOk (p : ParallelManager) : Prop :=
  0 <= workersNum p <= maxParallelWorkers.

(** Number of tasks of a class ([true]: barrier, [false]: shared) in a list,
    and among the tasks the workers hold. *)
Definition weight (b : bool) (t : task) : nat :=
  if Bool.eqb (barrier t) b then 1%nat else 0%nat.

Fixpoint total (b : bool) (l : list task) : nat :=
  match l with
  | [] => 0%nat
  | t :: l' => (weight b t + total b l')%nat
  end.

Fixpoint totalHeld (b : bool) (ws : list worker) : nat :=
  match ws with
  | [] => 0%nat
  | w :: ws' => (total b (held w) + totalHeld b ws')%nat
  end.

(** Holds of a class outstanding: taken by [doQueueTask] and not yet
    released by a worker. *)
Definition holds (b : bool) (p : ParallelManager) : nat :=
  (total b (queueCh p) + totalHeld b (workers p))%nat.

(** The gate agrees with the outstanding holds: as many readers as shared
    holds, a writer exactly when there is one exclusive hold, and never both
    kinds at once. *)
Definition gateOk (p : ParallelManager) : Prop :=
  holds false p = readers (barrierSync p)
  /\ holds true p = (if writer (barrierSync p) then 1%nat else 0%nat)
  /\ (writer (barrierSync p) = true -> readers (barrierSync p) = 0%nat).

End Parallel.

(** ** A sample host for concrete runs *)

Module SampleHost.

Import Mirror Parallel.

(** Four CPUs; the budget is taken as eight tenths of the available memory,
    rounded down. *)
#[local] Instance host : Runtime := {|
  NumCPU := 4;
  defaultWorkerFactor := 4;
  memBudget := fun a => a * 8 / 10
|}.

Definition job (b : bool) (sz : Z) : task :=
  {| fn := fun _ => noURLs; barrier := b; uploadSize := sz |}.

(** A manager on a host with 1 GiB or with 10 GiB of memory available. *)
Definition small : ParallelManager := newParallelManager (Some (2 ^ 30)).
Definition large : ParallelManager := newParallelManager (Some (10 * 2 ^ 30)).

(** A manager whose monitor has seen [best] as its best bandwidth and
    [stalls] stalled ticks, with [sent] bytes counted since. *)
Definition monitoring (best stalls sent : Z) : ParallelManager :=
  setSentBytes sent
    (setMonitor
       {| running := true; prevSentBytes := 0; maxBandwidth := best;
          retry := stalls |} large).

(** Two shared tasks admitted and picked up by the first two workers. *)
Definition twoShared : list event :=
  [Queue (job false 10) 0; Receive 0 0; Queue (job false 20) 0; Receive 1 0].

Definition twoRunning : ParallelManager :=
  match run twoShared large with
  | Some p => p
  | None => large
  end.

(** One shared task queued, executed, reported and released; then the
    queue is closed and the four workers return. *)
Definition fullRun : list event :=
  [Queue (job false 10) 0; Receive 0 0; Return 0; Report 0; Release 0;
   CloseQueue; Exit 0; Exit 1; Exit 2; Exit 3].

Definition drained : ParallelManager :=
  match run fullRun large with
  | Some p => p
  | None => large
  end.

(** The state a run leads to from a given state (the state itself when
    some move of the run is not enabled). *)
Definition after (es : list event) (p : ParallelManager) : ParallelManager :=
  match run es p with
  | Some q => q
  | None => p
  end.

End SampleHost.

(** ** Bookkeeping over the runs of the manager *)

Module Accounting.

Import Mirror Parallel.

(** Number of workers of a list that satisfy a test. *)
Fixpoint tally (f : worker -> bool) (ws : list worker) : nat :=
  match ws with
  | [] => 0%nat
  | w :: ws' => ((if f w then 1 else 0) + tally f ws')%nat
  end.

(** The worker still owes the result of its task. *)
Definition owesResult (w : worker) : bool :=
  match w with
  | Running _ | Reporting _ _ => true
  | _ => false
  end.

(** The goroutine of the worker has not returned. *)
Definition alive (w : worker) : bool :=
  match w with
  | Exited => false
  | _ => true
  end.

(** Number of [doQueueTask] calls that got through in a run, the tasks they
    submitted, and the bytes reported through [Read]. *)
Fixpoint queued (es : list event) : nat :=
  match es with
  | [] => 0%nat
  | Queue _ _ :: es' => S (queued es')
  | _ :: es' => queued es'
  end.

Fixpoint submitted (es : list event) : list task :=
  match es with
  | [] => []
  | Queue t _ :: es' => t :: submitted es'
  | _ :: es' => submitted es'
  end.

Fixpoint sent (es : list event) : Z :=
  match es with
  | [] => 0
  | Sent len :: es' => len + sent es'
  | _ :: es' => sent es'
  end.

(** The gate is free: no exclusive hold and no shared hold. *)
Definition gateFree (p : ParallelManager) : Prop :=
  writer (barrierSync p) = false /\ readers (barrierSync p) = 0%nat.

(** The monitor locals are within their bounds. *)
Definition monitorOk (p : ParallelManager) : Prop :=
  0 <= retry (monitor p) <= 3
  /\ (running (monitor p) = true -> retry (monitor p) <= 2)
  /\ (running (monitor p) = false ->
      retry (monitor p) = 3 \/ stopMonitorCh p = true)
  /\ 0 <= maxBandwidth (monitor p).

(** The pool agrees with its counters: [workersNum] is the number of
    worker goroutines started, at most 128 of them, and the wait group
    counts those that have not returned. *)
Definition poolOk (p : ParallelManager) : Prop :=
  workersNum p = Z.of_nat (length (workers p))
  /\ wg p = Z.of_nat (tally alive (workers p))
  /\ (length (workers p) <= 128)%nat.

(** What [addWorker] and a monitor tick leave alone. *)
Definition sameChannels (p q : ParallelManager) : Prop :=
  queueCh q = queueCh p /\ queueClosed q = queueClosed p
  /\ resultCh q = resultCh p /\ barrierSync q = barrierSync p
  /\ sentBytes q = sentBytes p /\ stopMonitorCh q = stopMonitorCh p
  /\ maxMem q = maxMem p.

(** The task carries the function of one of the tasks of [S]. *)
Definition fromTasks (S : list task) (t : task) : Prop :=
  exists t0, In t0 S /\ fn t = fn t0.

(** Every task in flight carries the function of a submitted task, a worker
    that reports sends what the function of its task returned, and every
    result sent is what the function of a submitted task returned. *)
Definition provenance (S : list task) (p : ParallelManager) : Prop :=
  (forall t, In t (queueCh p) -> fromTasks S t)
  /\ (forall w t, In w (workers p) -> In t (held w) -> fromTasks S t)
  /\ (forall t r, In (Reporting t r) (workers p) -> r = fn t tt)
  /\ (forall r, In r (resultCh p) -> exists t0, In t0 S /\ r = fn t0 tt).

(** A closed queue has no sender blocked on it. *)
Definition closedOk (p : ParallelManager) : Prop :=
  queueClosed p = true -> queueCh p = [].

(** Tasks admitted whose result is still to come: on offer, or with a
    worker that has not sent the result yet. *)
Definition backlog (p : ParallelManager) : nat :=
  (length (queueCh p) + tally owesResult (workers p))%nat.

End Accounting.

(** ** Views of the mirror options and results *)

Module Policy.

Import Mirror.

(** What the flags allow: overwriting a target that differs, and removing
    a target that has no source. *)
Definition mayOverwrite (opts : mirrorOptions) : bool :=
  isOverwrite opts || isFake opts || activeActive opts.

Definition mayRemove (opts : mirrorOptions) : bool :=
  isRemove opts || isFake opts.

(** The options with another list of exclude patterns. *)
Definition withExclude (patterns : list string) (opts : mirrorOptions)
  : mirrorOptions :=
  {| isFake := isFake opts; isOverwrite := isOverwrite opts;
     activeActive := activeActive opts; isWatch := isWatch opts;
     isRemove := isRemove opts; isMetadata := isMetadata opts;
     excludeOptions := patterns |}.

(** A result without its error condition, which is all the older revision
    reports. *)
Definition dropCond (u : URLs) : URLs :=
  {| SourceAlias := SourceAlias u; SourceContent := SourceContent u;
     TargetAlias := TargetAlias u; TargetContent := TargetContent u;
     Error := Error u; ErrorCond := differInUnknown |}.

(** The roots [deltaSourceTarget] works with: separator appended, alias
    expanded. *)
Definition root `{Env} (url : string) : string * string :=
  mustExpandAlias (withSeparator url).

End Policy.

(** ** Command-line checks of the mirror command (cmd/mirror-url.go) *)

Module Syntax.

Import Mirror.

Local Open Scope string_scope.

(** How a check ends: the command goes on with a value, after reporting
    the errors [errorIf] was given (which reports and goes on); the process
    exits through the help screen; or [fatalIf] ends it with a message. *)
Inductive checked (A : Type) :=
| Proceed (a : A) (reported : list string)
| HelpExit (code : Z)
| Fatal (msg : string).
Arguments Proceed {A} a reported.
Arguments HelpExit {A} code.
Arguments Fatal {A} msg.

(** What [checkMirrorSyntax] reads of the content [url2Stat] returns. *)
Record statContent := {
  IsDir : bool;
  contentSeparator : ascii
}.

(** The command line and the host as [checkMirrorSyntax] sees them: the
    arguments, the boolean flags, whether the host is Windows, whether the
    client URL of an expanded path is of the file-system type, the result
    of [url2Stat] on a URL, [filepath.IsAbs] and [filepath.Abs] ([None]
    when it fails). *)
Class CLI := {
  Args : list string;
  Bool : string -> bool;
  windows : bool;
  isFileSystem : string -> bool;
  url2Stat : string -> probeError + statContent;
  IsAbs : string -> bool;
  Abs : string -> option string
}.

Definition forceWithRemove : string :=
  "`--force` is deprecated, please use `--overwrite` instead with `--remove` for the same functionality.".

Definition forceAlone : string :=
  "`--force` is deprecated, please use `--overwrite` instead for the same functionality.".

Definition preserveOnWindows : string :=
  "Preserve functionality on windows support object storage to object storage transfer only.".

(** [checkMirrorSyntax] of the current revision: the source and target
    URLs the mirror goes on with. *)
Definition checkMirrorSyntax `{Env} `{CLI} : checked (string * string) :=
  match Args with
  | [srcURL; tgtURL] =>
      let deprecated :=
        if Bool "force" && Bool "remove" then [forceWithRemove]
        else if Bool "force" then [forceAlone]
        else [] in
      let srcIsFS := isFileSystem (snd (mustExpandAlias srcURL)) in
      let destIsFS := isFileSystem (snd (mustExpandAlias tgtURL)) in
      let preserve :=
        if windows && Bool "a" then
          if srcIsFS || destIsFS then [preserveOnWindows] else []
        else [] in
      if negb (Bool "watch") && negb (Bool "active-active")
         && negb (Bool "multi-master")
      then
        match url2Stat srcURL with
        | inl _ => Fatal ("Unable to stat source `" ++ srcURL ++ "`.")
        | inr srcContent =>
            if negb (IsDir srcContent) then
              Fatal ("Source `" ++ srcURL
                     ++ "` is not a folder. Only folders are supported by mirror command.")
            else
              let srcURL :=
                if srcIsFS && negb (IsAbs srcURL) then
                  match Abs srcURL with
                  | Some absolute => absolute
                  | None => srcURL
                  end
                else srcURL in
              let separator := Strings.of_rune (contentSeparator srcContent) in
              let srcURL :=
                if Strings.HasSuffix srcURL separator then srcURL
                else srcURL ++ separator in
              Proceed (srcURL, tgtURL) (deprecated ++ preserve)
        end
      else Proceed (srcURL, tgtURL) (deprecated ++ preserve)
  | _ => HelpExit 1
  end.

(** The mirror follows changes instead of mirroring once. *)
Definition following `{CLI} : bool :=
  Bool "watch" || Bool "active-active" || Bool "multi-master".

End Syntax.

(** ** Configuration check (cmd/main.go) *)

Module Config.

Local Open Scope string_scope.

(** The loop of [checkConfig] that fills the error buffer. *)
Fixpoint writeErrors (index : nat) (errMsgs : list string) (errorMsg : string)
  : string :=
  match errMsgs with
  | [] => errorMsg
  | errMsg :: rest =>
      if (10 <? index)%nat then errorMsg
      else writeErrors (S index) rest (errorMsg ++ (errMsg ++ String "010" ""))
  end.

(** [checkConfig]: [None] when the configuration is sane, the message the
    process dies with otherwise.  [loaded] is the result of [loadMcConfig]
    ([None] when it fails) and [validateConfigFile] tells whether a
    configuration is valid, with its error messages. *)
Definition checkConfig {config : Type} (loaded : option config)
  (validateConfigFile : config -> bool * list string) : option string :=
  match loaded with
  | None => Some "Unable to access configuration file."
  | Some cfg =>
      let '(ok, errMsgs) := validateConfigFile cfg in
      if negb ok then Some (writeErrors 0 errMsgs "") else None
  end.

(** The messages, one per line. *)
Definition lines (msgs : list string) : string :=
  List.fold_right (fun msg rest => msg ++ (String "010" "") ++ rest) "" msgs.

End Config.

(** ** Bandwidth of a remote target (admin bucket remote add) *)

Module Remote.

Local Open Scope string_scope.

(** [getBandwidthInBytes]; [ParseBytes] is [humanize.ParseBytes], which
    returns a value and an optional error. *)
Definition getBandwidthInBytes {E : Type} (ParseBytes : string -> Z * option E)
  (bandwidthStr : string) : Z * option E :=
  let '(bandwidth, err) :=
    if negb (String.eqb bandwidthStr "") then ParseBytes bandwidthStr
    else (0, None) in
  match err with
  | Some e => (bandwidth, Some e)
  | None => (bandwidth / 8, None)
  end.

End Remote.

(** ** A sample command line for concrete runs *)

Module SampleCLI.

Import Mirror Syntax.

Local Open Scope string_scope.

(** [mc mirror play/src play/dst] with the given flags set, on a host where
    every URL is an existing folder of an object store. *)
#[local] Instance cli (args flags : list string) : CLI := {|
  Args := args;
  Bool := fun name => List.existsb (String.eqb name) flags;
  windows := false;
  isFileSystem := fun _ => false;
  url2Stat := fun _ => inr {| IsDir := true; contentSeparator := "/" |};
  IsAbs := fun _ => true;
  Abs := fun path => Some path
|}.

(** A difference message that carries a listing error. *)
Definition failed (url : string) : diffMessage :=
  {| FirstURL := url; SecondURL := ""; Diff := differInUnknown;
     dmError := Some (errExternal "listing failed");
     firstContent := None; secondContent := None |}.

End SampleCLI.

(** ** Suggestions for a mistyped command (cmd/main.go) *)

Module Suggest.

Local Open Scope nat_scope.

(** Go's [sort.Search]: bisection for the smallest index of [0, n) at which
    [f] holds, [n] when there is none.  The interval shrinks at every turn
    of the loop, so [n] turns are enough. *)
Fixpoint searchLoop (turns : nat) (f : nat -> bool) (i j : nat) : nat :=
  match turns with
  | O => i
  | S turns' =>
      if i <? j then
        let h := Nat.div2 (i + j) in
        if negb (f h) then searchLoop turns' f (h + 1) j
        else searchLoop turns' f i h
      else i
  end.

Definition Search (n : nat) (f : nat -> bool) : nat := searchLoop n f 0 n.

(** [sort.SearchStrings]: [a[i] >= x] is the test. *)
Definition SearchStrings (a : list string) (x : string) : nat :=
  Search (length a) (fun i => negb (String.ltb (List.nth i a EmptyString) x)).

(** [sort.Strings], as the sort by insertion; strings that compare equal
    are the same string, so every sort gives the same list. *)
Fixpoint insertString (x : string) (l : list string) : list string :=
  match l with
  | [] => [x]
  | y :: l' => if String.leb x y then x :: y :: l' else y :: insertString x l'
  end.

Definition sortStrings (l : list string) : list string :=
  List.fold_right insertString [] l.

(** The command trie and the distance between words, which live outside
    the sources: the commands with a given prefix, all commands in the
    order the trie walks them, and [words.DamerauLevenshteinDistance]. *)
Class Commands := {
  PrefixMatch : string -> list string;
  Walk : list string;
  DamerauLevenshteinDistance : string -> string -> Z
}.

(** One turn of the loop of [findClosestCommands]. *)
Definition consider `{Commands} (command : string)
  (closestCommands : list string) (value : string) : list string :=
  if SearchStrings closestCommands value <? length closestCommands
  then closestCommands
  else if (DamerauLevenshteinDistance command value <? 2)%Z
       then closestCommands ++ [value]
       else closestCommands.

(** [findClosestCommands]. *)
Definition findClosestCommands `{Commands} (command : string) : list string :=
  List.fold_left (consider command) Walk (sortStrings (PrefixMatch command)).

(** Ascending order on strings. *)
Definition ascendingStrings (l : list string) : Prop :=
  StronglySorted (fun a b => String.leb a b = true) l.

(** The same loop with a scan in place of the bisection: a value is passed
    over when some suggestion made so far is at or above it. *)
Definition considerByScan `{Commands} (command : string)
  (closestCommands : list string) (value : string) : list string :=
  if List.existsb (String.leb value) closestCommands
  then closestCommands
  else if (DamerauLevenshteinDistance command value <? 2)%Z
       then closestCommands ++ [value]
       else closestCommands.

(** A sample trie: commands as listed, a distance that is 0 on the command
    itself, 1 on commands of the same length and 3 otherwise. *)
#[local] Instance trie (commands : list string) : Commands := {|
  PrefixMatch := fun command =>
    List.filter (String.prefix command) commands;
  Walk := commands;
  DamerauLevenshteinDistance := fun a b =>
    if String.eqb a b then 0%Z
    else if String.length a =? String.length b then 1%Z else 3%Z
|}.

End Suggest.

(** * Properties *)

(** ** Admission by memory budget *)

Section Admission.

Import Mirror Parallel.

Lemma uint64_small x : 0 <= x < 2 ^ 64 -> Int.uint64 x = x.
Proof. intros Hx. unfold Int.uint64. apply Z.mod_small. exact Hx. Qed.

Lemma uint64_nonneg x : 0 <= Int.uint64 x.
Proof. unfold Int.uint64. apply Z.mod_pos_bound. lia. Qed.

(** The estimate is the size itself below three parts and three parts from
    there on. *)
Lemma estimate_capped size :
  0 <= size < 2 ^ 64 ->
  estimateNeededMemoryForUpload size = Z.min size (3 * partSize).
Proof.
  intros Hs. unfold estimateNeededMemoryForUpload.
  assert (Hp : 0 < partSize) by (unfold partSize; lia).
  destruct (Z.leb_spec 3 (size / partSize)) as [Hge | Hlt].
  - assert (3 * partSize <= size).
    { pose proof (Z.mul_div_le size partSize Hp). nia. }
    lia.
  - rewrite uint64_small by exact Hs.
    assert (size < 3 * partSize).
    { pose proof (Z.mul_succ_div_gt size partSize Hp). nia. }
    lia.
Qed.

(** C10: with an upload size of 0 or a memory budget of 0,
    [enoughMemForUpload] returns true and [doQueueTask] takes the hold of the
    class the task was submitted with, the task unchanged; and the budget is
    0 whenever the memory statistics could not be read when the manager was
    created. *)
Theorem no_promotion_without_size_or_budget `{Runtime} :
  (forall p alloc t,
      uploadSize t = 0 \/ maxMem p = 0 ->
      enoughMemForUpload p alloc (Int.uint64 (uploadSize t)) = Returns true
      /\ doQueueTask p alloc t = hold p t)
  /\ maxMem (newParallelManager None) = 0.
Proof.
  split.
  - intros p alloc t Hz.
    assert (He : enoughMemForUpload p alloc (Int.uint64 (uploadSize t))
                 = Returns true).
    { unfold enoughMemForUpload.
      pose proof (uint64_nonneg (uploadSize t)) as Hn.
      destruct (Z.ltb_spec (Int.uint64 (uploadSize t)) 0) as [Hneg | _];
        [lia |].
      destruct Hz as [Hz | Hz].
      - rewrite Hz. reflexivity.
      - rewrite Hz. rewrite orb_true_r. reflexivity. }
    split; [exact He |].
    unfold doQueueTask. rewrite He. reflexivity.
  - unfold newParallelManager, monitorProgress, addWorkers. simpl.
    generalize (Z.to_nat NumCPU). intros n.
    induction n as [| n IH]; simpl; [reflexivity |].
    unfold addWorker at 1.
    destruct (maxParallelWorkers <=? _); simpl; exact IH.
Qed.

Lemma no_promotion_without_size_or_budget_witness :
  doQueueTask SampleHost.small 0 (SampleHost.job false 0)
  = hold SampleHost.small (SampleHost.job false 0).
Proof.
  apply (proj1 (@no_promotion_without_size_or_budget SampleHost.host)).
  left. reflexivity.
Defined.

(** C7: for a task of positive size and a manager with a non-zero budget,
    when the estimate for the upload (its size, capped at three parts of
    128 MiB) plus the allocated memory is not below the budget,
    [enoughMemForUpload] returns false and [doQueueTask] takes the exclusive
    hold for the task turned into a barrier task, whatever its class was.
    The sum is the one the code forms in 64 bits; it is the exact sum as long
    as that fits, which is what the last but one hypothesis says. *)
Theorem promoted_to_barrier_when_memory_short :
  forall p alloc t,
    0 < uploadSize t < 2 ^ 63 ->
    maxMem p <> 0 ->
    0 <= alloc ->
    Z.min (uploadSize t) (3 * (128 * 1024 * 1024)) + alloc < 2 ^ 64 ->
    ~ (Z.min (uploadSize t) (3 * (128 * 1024 * 1024)) + alloc < maxMem p) ->
    enoughMemForUpload p alloc (Int.uint64 (uploadSize t)) = Returns false
    /\ doQueueTask p alloc t = hold p (withBarrier t)
    /\ barrier (withBarrier t) = true
    /\ hold p (withBarrier t)
       = match Lock (barrierSync p) with
         | Some m =>
             if queueClosed p then None
             else Some (setQueueCh (queueCh p ++ [withBarrier t])
                          (setBarrierSync m p))
         | None => None
         end.
Proof.
  intros p alloc t Hsize Hmax Halloc Hfit Hshort.
  assert (Hu : Int.uint64 (uploadSize t) = uploadSize t)
    by (apply uint64_small; lia).
  assert (He : enoughMemForUpload p alloc (Int.uint64 (uploadSize t))
               = Returns false).
  { unfold enoughMemForUpload. rewrite Hu.
    destruct (Z.ltb_spec (uploadSize t) 0) as [Hneg | _]; [lia |].
    destruct (Z.eqb_spec (uploadSize t) 0) as [Hz | _]; [lia |].
    destruct (Z.eqb_spec (maxMem p) 0) as [Hz | _]; [contradiction |].
    simpl. rewrite estimate_capped by lia.
    change partSize with (128 * 1024 * 1024).
    rewrite uint64_small by lia.
    destruct (Z.ltb_spec
                (Z.min (uploadSize t) (3 * (128 * 1024 * 1024)) + alloc)
                (maxMem p)) as [Hlt | _]; [contradiction | reflexivity]. }
  repeat split.
  - exact He.
  - unfold doQueueTask. rewrite He. reflexivity.
Qed.

Lemma promoted_to_barrier_when_memory_short_witness :
  doQueueTask SampleHost.small (2 ^ 29) (SampleHost.job false (2 ^ 30))
  = hold SampleHost.small (withBarrier (SampleHost.job false (2 ^ 30))).
Proof.
  apply (promoted_to_barrier_when_memory_short SampleHost.small (2 ^ 29)
           (SampleHost.job false (2 ^ 30))).
  - simpl. lia.
  - vm_compute. discriminate.
  - lia.
  - simpl. lia.
  - vm_compute. intros Hlt. discriminate Hlt.
Defined.

End Admission.

(** ** Worker count and throughput monitor *)

(** Case analysis on an enabled move: every test the move makes is decided,
    the branches where it is not enabled are discarded, and the state after
    the move is substituted. *)
Ltac enabled Hs :=
  repeat match type of Hs with
         | match ?x with _ => _ end = Some _ =>
             let E := fresh "E" in destruct x eqn:E; try discriminate Hs
         | Some _ = Some _ => injection Hs as <-
         end.

Ltac moves Hs :=
  unfold Parallel.doQueueTask, Parallel.hold, Parallel.workerReceive,
    Parallel.workerReturn, Parallel.workerReport, Parallel.workerRelease,
    Parallel.workerExit, Parallel.monitorQuit, Parallel.closeQueue,
    Parallel.stopMonitor in Hs.

Section Workers.

Import Mirror Parallel.

Context `{Runtime}.

Lemma addWorker_count p :
  countOk p ->
  workersNum (addWorker p) = Z.min maxParallelWorkers (workersNum p + 1).
Proof.
  unfold countOk, addWorker, maxParallelWorkers. intros Hc.
  destruct (Z.leb_spec 128 (workersNum p)) as [Hfull | Hroom]; simpl.
  - lia.
  - unfold Int.uint32. rewrite Z.mod_small by lia. lia.
Qed.

Lemma addWorker_grows p :
  countOk p ->
  workersNum p <= workersNum (addWorker p) /\ countOk (addWorker p).
Proof.
  intros Hc. pose proof (addWorker_count p Hc) as Hn.
  unfold countOk in *. unfold maxParallelWorkers in *. lia.
Qed.

Lemma iter_addWorker_count n p :
  countOk p ->
  workersNum (Nat.iter n addWorker p)
  = Z.min maxParallelWorkers (workersNum p + Z.of_nat n)
  /\ countOk (Nat.iter n addWorker p).
Proof.
  intros Hc. induction n as [| n [IHn IHc]].
  - simpl. unfold countOk, maxParallelWorkers in *. split; lia.
  - rewrite Nat.iter_succ. pose proof (addWorker_count _ IHc) as Hn.
    pose proof (addWorker_grows _ IHc) as [_ Hc'].
    split; [| exact Hc'].
    rewrite Hn, IHn. unfold maxParallelWorkers. lia.
Qed.

Lemma addWorkers_count n p :
  countOk p ->
  workersNum (addWorkers n p)
  = Z.min maxParallelWorkers (workersNum p + Z.max 0 n)
  /\ countOk (addWorkers n p).
Proof.
  intros Hc. unfold addWorkers.
  destruct (iter_addWorker_count (Z.to_nat n) p Hc) as [Hn Hc'].
  split; [| exact Hc']. rewrite Hn. f_equal. lia.
Qed.

Lemma addWorkers_grows n p :
  countOk p ->
  workersNum p <= workersNum (addWorkers n p) /\ countOk (addWorkers n p).
Proof.
  intros Hc. destruct (addWorkers_count n p Hc) as [Hn Hc'].
  split; [| exact Hc']. unfold countOk, maxParallelWorkers in *. lia.
Qed.

Lemma monitorTick_grows p :
  countOk p ->
  workersNum p <= workersNum (monitorTick p) /\ countOk (monitorTick p).
Proof.
  intros Hc. unfold monitorTick.
  destruct (negb (running (monitor p))); [split; [lia | exact Hc] |].
  destruct (_ <=? _).
  - destruct (2 <? _).
    + split; [simpl; lia | exact Hc].
    + apply (addWorkers_grows _ (setMonitor _ p)). exact Hc.
  - apply (addWorkers_grows _ (setMonitor _ p)). exact Hc.
Qed.

Lemma hold_workersNum p t p' :
  hold p t = Some p' -> workersNum p' = workersNum p.
Proof.
  unfold hold. intros Hh.
  destruct ((if barrier t then Lock else RLock) (barrierSync p)); [| discriminate].
  destruct (queueClosed p); [discriminate |].
  injection Hh as <-. reflexivity.
Qed.

(** Only [addWorker] writes the worker count. *)
Lemma step_grows e p p' :
  countOk p -> step e p = Some p' ->
  workersNum p <= workersNum p' /\ countOk p'.
Proof.
  intros Hc Hs.
  assert (Hsame : workersNum p' = workersNum p ->
                  workersNum p <= workersNum p' /\ countOk p').
  { intros Heq. unfold countOk in *. rewrite Heq. lia. }
  destruct e; simpl in Hs;
    try (moves Hs; enabled Hs; apply Hsame; reflexivity).
  destruct (running (monitor p)); [| discriminate].
  injection Hs as <-. apply monitorTick_grows. exact Hc.
Qed.

Lemma run_grows es : forall p p',
  countOk p -> run es p = Some p' ->
  workersNum p <= workersNum p' /\ countOk p'.
Proof.
  induction es as [| e es IH]; intros p p' Hc Hr; simpl in Hr.
  - injection Hr as <-. split; [lia | exact Hc].
  - destruct (step e p) as [q |] eqn:Hs; [| discriminate].
    destruct (step_grows e p q Hc Hs) as [Hle Hq].
    destruct (IH q p' Hq Hr) as [Hle' Hp'].
    split; [lia | exact Hp'].
Qed.

Lemma run_app es1 : forall es2 p,
  run (es1 ++ es2) p
  = match run es1 p with Some q => run es2 q | None => None end.
Proof.
  induction es1 as [| e es1 IH]; intros es2 p; simpl; [reflexivity |].
  destruct (step e p); [apply IH | reflexivity].
Qed.

Lemma newParallelManager_count available :
  countOk (newParallelManager available)
  /\ workersNum (newParallelManager available)
     = Z.min maxParallelWorkers (Z.max 0 NumCPU).
Proof.
  unfold newParallelManager, monitorProgress.
  match goal with
  | |- context [addWorkers NumCPU ?z] =>
      assert (Hz : countOk z) by (unfold countOk, maxParallelWorkers; simpl; lia);
      destruct (addWorkers_count NumCPU z Hz) as [Hn Hc]
  end.
  split; [exact Hc |]. simpl. simpl in Hn. rewrite Hn. reflexivity.
Qed.

(** C8: the worker count never decreases and never exceeds 128.  Every call
    of [addWorker] leaves it where it is or adds one and keeps it at most
    128, so this holds along the calls of the startup loop; the manager is
    returned with [min 128 NumCPU] workers; and from there on, whatever the
    goroutines do, the count of a later state of the run is at least the
    count of an earlier one and at most 128. *)
Theorem worker_count_monotone_and_bounded :
  (forall p, countOk p ->
     workersNum p <= workersNum (addWorker p) <= maxParallelWorkers)
  /\ (forall budget n,
        let p0 := {| sentBytes := 0; wg := 0;
                     barrierSync := {| writer := false; readers := O |};
                     workersNum := 0; queueCh := []; queueClosed := false;
                     resultCh := []; stopMonitorCh := false;
                     maxMem := budget; workers := [];
                     monitor := {| running := false; prevSentBytes := 0;
                                   maxBandwidth := 0; retry := 0 |} |} in
        workersNum (Nat.iter n addWorker p0)
        <= workersNum (Nat.iter (S n) addWorker p0) <= maxParallelWorkers)
  /\ (forall available es es' p p',
        run es (newParallelManager available) = Some p ->
        run es' p = Some p' ->
        0 <= workersNum p <= workersNum p'
        /\ workersNum p' <= maxParallelWorkers).
Proof.
  split; [| split].
  - intros p Hc. destruct (addWorker_grows p Hc) as [Hle Hc'].
    unfold countOk in Hc'. lia.
  - intros budget n p0.
    assert (Hz : countOk p0) by (unfold countOk, maxParallelWorkers; simpl; lia).
    destruct (iter_addWorker_count n p0 Hz) as [_ Hc].
    rewrite Nat.iter_succ. destruct (addWorker_grows _ Hc) as [Hle Hc'].
    unfold countOk in Hc'. lia.
  - intros available es es' p p' Hr Hr'.
    destruct (newParallelManager_count available) as [Hc0 _].
    destruct (run_grows es _ p Hc0 Hr) as [_ Hc].
    destruct (run_grows es' p p' Hc Hr') as [Hle Hc'].
    unfold countOk in *. lia.
Qed.

End Workers.

Lemma worker_count_monotone_and_bounded_witness :
  0 <= Parallel.workersNum SampleHost.large
     <= Parallel.workersNum (@Parallel.monitorTick SampleHost.host SampleHost.large)
  /\ Parallel.workersNum (@Parallel.monitorTick SampleHost.host SampleHost.large)
     <= Parallel.maxParallelWorkers.
Proof.
  apply (proj2 (proj2 (@worker_count_monotone_and_bounded SampleHost.host))
           (Some (10 * 2 ^ 30)) [] [Parallel.Tick]); reflexivity.
Defined.

Section Monitor.

Import Mirror Parallel.

Context `{Runtime}.

(** Once the monitor has returned, nothing starts it again. *)
Lemma monitor_stays_stopped e p p' :
  running (monitor p) = false -> step e p = Some p' ->
  running (monitor p') = false.
Proof.
  intros Hoff Hs.
  destruct e; simpl in Hs;
    try (moves Hs; enabled Hs; exact Hoff).
  - rewrite Hoff in Hs. discriminate.
  - unfold monitorQuit in Hs. rewrite Hoff, andb_false_r in Hs. discriminate.
Qed.

(** C9, as the code has it: on a tick the running monitor takes the bytes
    sent since the previous sample.  When they exceed the best so far, it
    records them as the best, resets the stall counter and adds one batch of
    [defaultWorkerFactor] workers.  When they are lower than or equal to the
    best, it increments the stall counter; if the counter now exceeds 2 it
    returns without adding workers, otherwise it still adds one batch.  A
    batch raises the worker count by its size, up to 128.  After the monitor
    has returned, no tick fires and no move of the run starts it again. *)
Theorem monitor_tick_behaviour :
  forall p,
    running (monitor p) = true ->
    let m := monitor p in
    let delta := Int.int64 (sentBytes p - prevSentBytes m) in
    (maxBandwidth m < delta ->
       monitorTick p
       = addWorkers defaultWorkerFactor
           (setMonitor {| running := true; prevSentBytes := sentBytes p;
                          maxBandwidth := delta; retry := 0 |} p))
    /\ (delta <= maxBandwidth m -> retry m + 1 <= 2 ->
          monitorTick p
          = addWorkers defaultWorkerFactor
              (setMonitor {| running := true; prevSentBytes := sentBytes p;
                             maxBandwidth := maxBandwidth m;
                             retry := retry m + 1 |} p))
    /\ (delta <= maxBandwidth m -> 2 < retry m + 1 ->
          monitorTick p
          = setMonitor {| running := false; prevSentBytes := sentBytes p;
                          maxBandwidth := maxBandwidth m;
                          retry := retry m + 1 |} p)
    /\ (forall q, 0 <= workersNum q <= maxParallelWorkers ->
          workersNum (addWorkers defaultWorkerFactor q)
          = Z.min maxParallelWorkers
              (workersNum q + Z.max 0 defaultWorkerFactor))
    /\ (forall q, running (monitor q) = false ->
          monitorTick q = q /\ step Tick q = None
          /\ forall e q', step e q = Some q' -> running (monitor q') = false).
Proof.
  intros p Hon m delta.
  assert (Hunf : monitorTick p
    = if delta <=? maxBandwidth m then
        if 2 <? retry m + 1 then
          setMonitor {| running := false; prevSentBytes := sentBytes p;
                        maxBandwidth := maxBandwidth m;
                        retry := retry m + 1 |} p
        else
          addWorkers defaultWorkerFactor
            (setMonitor {| running := true; prevSentBytes := sentBytes p;
                           maxBandwidth := maxBandwidth m;
                           retry := retry m + 1 |} p)
      else
        addWorkers defaultWorkerFactor
          (setMonitor {| running := true; prevSentBytes := sentBytes p;
                         maxBandwidth := delta; retry := 0 |} p)).
  { unfold monitorTick. rewrite Hon. reflexivity. }
  split; [| split; [| split; [| split]]].
  - intros Hgt. rewrite Hunf.
    destruct (Z.leb_spec delta (maxBandwidth m)); [lia | reflexivity].
  - intros Hle Hfew. rewrite Hunf.
    destruct (Z.leb_spec delta (maxBandwidth m)); [| lia].
    destruct (Z.ltb_spec 2 (retry m + 1)); [lia | reflexivity].
  - intros Hle Hmany. rewrite Hunf.
    destruct (Z.leb_spec delta (maxBandwidth m)); [| lia].
    destruct (Z.ltb_spec 2 (retry m + 1)); [reflexivity | lia].
  - intros q Hc. apply addWorkers_count. exact Hc.
  - intros q Hoff. split; [| split].
    + unfold monitorTick. rewrite Hoff. reflexivity.
    + simpl. rewrite Hoff. reflexivity.
    + intros e q'. apply monitor_stays_stopped. exact Hoff.
Qed.

End Monitor.

Lemma monitor_tick_behaviour_witness :
  @Parallel.monitorTick SampleHost.host (SampleHost.monitoring 100 2 50)
  = Parallel.setMonitor
      {| Parallel.running := false; Parallel.prevSentBytes := 50;
         Parallel.maxBandwidth := 100; Parallel.retry := 3 |}
      (SampleHost.monitoring 100 2 50).
Proof.
  apply (proj1 (proj2 (proj2
           (@monitor_tick_behaviour SampleHost.host
              (SampleHost.monitoring 100 2 50) eq_refl)))).
  - vm_compute. discriminate.
  - vm_compute. reflexivity.
Defined.

(** C9 does not hold as stated.  A tick whose delta equals the best delta
    counts as a stall: the stall counter goes from 0 to 1 instead of being
    reset.  And a stalled tick that leaves the counter at 2 or less still
    adds a batch of workers: here the count goes from 4 to 8. *)
Lemma monitor_tick_counterexample :
  let p := SampleHost.monitoring 100 0 100 in
  let q := SampleHost.monitoring 100 0 50 in
  (Parallel.maxBandwidth (Parallel.monitor p)
   <= Int.int64 (Parallel.sentBytes p
                 - Parallel.prevSentBytes (Parallel.monitor p))
   /\ Parallel.retry (Parallel.monitor (@Parallel.monitorTick SampleHost.host p))
      <> 0)
  /\ (Int.int64 (Parallel.sentBytes q
                 - Parallel.prevSentBytes (Parallel.monitor q))
      < Parallel.maxBandwidth (Parallel.monitor q)
      /\ Parallel.workersNum (@Parallel.monitorTick SampleHost.host q)
         <> Parallel.workersNum q).
Proof.
  vm_compute. repeat split; discriminate.
Qed.

(** ** Barrier isolation *)

Section Gate.

Import Mirror Parallel.

Context `{Runtime}.

Local Open Scope nat_scope.

Lemma total_app b l1 l2 : total b (l1 ++ l2) = total b l1 + total b l2.
Proof. induction l1 as [| t l1 IH]; simpl; [reflexivity | rewrite IH; lia]. Qed.

Lemma total_delete b (l : list task) : forall k t,
  l !! k = Some t -> total b l = weight b t + total b (delete k l).
Proof.
  induction l as [| x l IH]; intros k t Hk; [discriminate |].
  destruct k as [| k]; simpl in *.
  - injection Hk as ->. reflexivity.
  - rewrite (IH k t Hk). lia.
Qed.

Lemma totalHeld_insert b (ws : list worker) : forall i x y,
  ws !! i = Some x ->
  totalHeld b (<[i := y]> ws) + total b (held x)
  = totalHeld b ws + total b (held y).
Proof.
  induction ws as [| w ws IH]; intros i x y Hi; [discriminate |].
  destruct i as [| i]; simpl in *.
  - injection Hi as ->. lia.
  - pose proof (IH i x y Hi). lia.
Qed.

Lemma totalHeld_lookup b (ws : list worker) : forall i x,
  ws !! i = Some x -> total b (held x) <= totalHeld b ws.
Proof.
  induction ws as [| w ws IH]; intros i x Hi; [discriminate |].
  destruct i as [| i]; simpl in *.
  - injection Hi as ->. lia.
  - pose proof (IH i x Hi). lia.
Qed.

Lemma totalHeld_two b (ws : list worker) i j x y :
  i <> j -> ws !! i = Some x -> ws !! j = Some y ->
  total b (held x) + total b (held y) <= totalHeld b ws.
Proof.
  intros Hne Hi Hj.
  pose proof (totalHeld_insert b ws i x Waiting Hi) as Hins. simpl in Hins.
  assert (Hj' : <[i := Waiting]> ws !! j = Some y).
  { rewrite list_lookup_insert_ne by exact Hne. exact Hj. }
  pose proof (totalHeld_lookup b _ j y Hj'). lia.
Qed.

Lemma totalHeld_snoc_waiting b ws : totalHeld b (ws ++ [Waiting]) = totalHeld b ws.
Proof. induction ws as [| w ws IH]; simpl; [reflexivity | rewrite IH; reflexivity]. Qed.

Lemma total_zero b l : total b l = 0 -> forall t, In t l -> barrier t <> b.
Proof.
  induction l as [| x l IH]; intros Hz t Hin; [destruct Hin |].
  simpl in Hz. destruct Hin as [-> | Hin].
  - unfold weight in Hz. intros Hb. rewrite Hb, eqb_reflx in Hz. lia.
  - apply IH; [lia | exact Hin].
Qed.

Lemma total_all_zero l : total true l = 0 -> total false l = 0 -> l = [].
Proof.
  destruct l as [| t l]; [reflexivity |]. simpl. unfold weight.
  destruct (barrier t); simpl; lia.
Qed.

Lemma weight_same t : weight (barrier t) t = 1.
Proof. unfold weight. rewrite eqb_reflx. reflexivity. Qed.

Lemma weight_other t : weight (negb (barrier t)) t = 0.
Proof. unfold weight. destruct (barrier t); reflexivity. Qed.

Lemma addWorker_holds b p : holds b (addWorker p) = holds b p.
Proof.
  unfold addWorker. destruct (_ <=? _)%Z; [reflexivity |].
  unfold holds. simpl. rewrite totalHeld_snoc_waiting. reflexivity.
Qed.

Lemma addWorker_gateOk p : gateOk p -> gateOk (addWorker p).
Proof.
  unfold gateOk. rewrite !addWorker_holds.
  unfold addWorker. destruct (_ <=? _)%Z; simpl; tauto.
Qed.

Lemma addWorkers_gateOk n p : gateOk p -> gateOk (addWorkers n p).
Proof.
  intros Hg. unfold addWorkers.
  induction (Z.to_nat n) as [| k IH]; [exact Hg |].
  rewrite Nat.iter_succ. apply addWorker_gateOk. exact IH.
Qed.

Lemma monitorTick_gateOk p : gateOk p -> gateOk (monitorTick p).
Proof.
  intros Hg. unfold monitorTick.
  destruct (negb (running (monitor p))); [exact Hg |].
  destruct (_ <=? _)%Z; [destruct (_ <? _)%Z |];
    [exact Hg | |]; apply addWorkers_gateOk; exact Hg.
Qed.

Lemma hold_gateOk p t p' : gateOk p -> hold p t = Some p' -> gateOk p'.
Proof.
  unfold gateOk, hold, holds. intros (Hs & He & Hw) Hh.
  destruct (barrier t) eqn:Hb.
  - unfold Lock in Hh.
    destruct (writer (barrierSync p)) eqn:Hwr; [discriminate |].
    destruct (readers (barrierSync p)) eqn:Hrd; [| discriminate].
    destruct (queueClosed p); [discriminate |].
    injection Hh as <-. simpl. rewrite !total_app. simpl.
    pose proof (weight_same t) as W1. pose proof (weight_other t) as W0.
    rewrite Hb in W1, W0. simpl in W0. rewrite W1, W0.
    repeat split; lia.
  - unfold RLock in Hh.
    destruct (writer (barrierSync p)) eqn:Hwr; [discriminate |].
    destruct (queueClosed p); [discriminate |].
    injection Hh as <-. simpl. rewrite !total_app. simpl.
    pose proof (weight_same t) as W1. pose proof (weight_other t) as W0.
    rewrite Hb in W1, W0. simpl in W0. rewrite W1, W0.
    repeat split; try lia; try discriminate.
Qed.

Lemma step_gateOk e p p' : gateOk p -> step e p = Some p' -> gateOk p'.
Proof.
  intros Hg Hs. destruct e; simpl in Hs.
  - unfold doQueueTask in Hs.
    destruct (enoughMemForUpload p alloc _); [| discriminate].
    eapply hold_gateOk; eassumption.
  - unfold workerReceive in Hs.
    destruct (workers p !! w) as [[] |] eqn:Hw; try discriminate.
    destruct (queueCh p !! k) as [t |] eqn:Hk; [| discriminate].
    injection Hs as <-. unfold gateOk, holds in *. simpl.
    assert (Hb : forall b,
      total b (delete k (queueCh p))
      + totalHeld b (<[w := Running t]> (workers p))
      = total b (queueCh p) + totalHeld b (workers p)).
    { intros b. pose proof (total_delete b _ k t Hk).
      pose proof (totalHeld_insert b _ w _ (Running t) Hw) as Hi.
      simpl in Hi. lia. }
    rewrite !Hb. exact Hg.
  - unfold workerReturn in Hs.
    destruct (workers p !! w) as [[] |] eqn:Hw; try discriminate.
    injection Hs as <-. unfold gateOk, holds in *. simpl.
    assert (Hb : forall b,
      totalHeld b (<[w := Reporting t (fn t tt)]> (workers p))
      = totalHeld b (workers p)).
    { intros b.
      pose proof (totalHeld_insert b _ w _ (Reporting t (fn t tt)) Hw) as Hi.
      simpl in Hi. lia. }
    rewrite !Hb. exact Hg.
  - unfold workerReport in Hs.
    destruct (workers p !! w) as [[] |] eqn:Hw; try discriminate.
    injection Hs as <-. unfold gateOk, holds in *. simpl.
    assert (Hb : forall b,
      totalHeld b (<[w := Releasing t]> (workers p))
      = totalHeld b (workers p)).
    { intros b.
      pose proof (totalHeld_insert b _ w _ (Releasing t) Hw) as Hi.
      simpl in Hi. lia. }
    rewrite !Hb. exact Hg.
  - unfold workerRelease in Hs.
    destruct (workers p !! w) as [[] |] eqn:Hw; try discriminate.
    destruct Hg as (Hsh & Hex & Hwr). unfold holds in *.
    pose proof (totalHeld_insert true _ w _ Waiting Hw) as Ht.
    pose proof (totalHeld_insert false _ w _ Waiting Hw) as Hf.
    simpl in Ht, Hf.
    pose proof (weight_same t) as W1. pose proof (weight_other t) as W0.
    destruct (barrier t) eqn:Hb; simpl in W0.
    + unfold Unlock in Hs.
      destruct (writer (barrierSync p)) eqn:Hwri; [| discriminate].
      injection Hs as <-. unfold gateOk, holds. simpl.
      repeat split; try lia; try discriminate.
    + unfold RUnlock in Hs.
      destruct (readers (barrierSync p)) eqn:Hrd; [discriminate |].
      injection Hs as <-. unfold gateOk, holds. simpl.
      repeat split; try lia.
      intros Hwri. specialize (Hwr Hwri). discriminate.
  - unfold workerExit in Hs.
    destruct (workers p !! w) as [[] |] eqn:Hw; try discriminate.
    destruct (queueClosed p); [| discriminate].
    injection Hs as <-. unfold gateOk, holds in *. simpl.
    assert (Hb : forall b,
      totalHeld b (<[w := Exited]> (workers p)) = totalHeld b (workers p)).
    { intros b. pose proof (totalHeld_insert b _ w _ Exited Hw) as Hi.
      simpl in Hi. lia. }
    rewrite !Hb. exact Hg.
  - injection Hs as <-. exact Hg.
  - destruct (running (monitor p)); [| discriminate].
    injection Hs as <-. apply monitorTick_gateOk. exact Hg.
  - unfold monitorQuit in Hs.
    destruct (stopMonitorCh p && running (monitor p)); [| discriminate].
    injection Hs as <-. exact Hg.
  - unfold closeQueue in Hs.
    destruct (queueClosed p); [discriminate |].
    destruct (queueCh p) eqn:Hq; [| discriminate].
    injection Hs as <-. exact Hg.
  - unfold stopMonitor in Hs.
    destruct (queueClosed p && (wg p =? 0)%Z && negb (stopMonitorCh p));
      [| discriminate].
    injection Hs as <-. exact Hg.
Qed.

Lemma run_gateOk es : forall p p',
  gateOk p -> run es p = Some p' -> gateOk p'.
Proof.
  induction es as [| e es IH]; intros p p' Hg Hr; simpl in Hr.
  - injection Hr as <-. exact Hg.
  - destruct (step e p) as [q |] eqn:Hs; [| discriminate].
    eapply IH; [| exact Hr]. eapply step_gateOk; eassumption.
Qed.

Lemma newParallelManager_gateOk available :
  gateOk (newParallelManager available).
Proof.
  unfold newParallelManager, monitorProgress.
  match goal with
  | |- gateOk (setMonitor _ (addWorkers _ ?z)) =>
      assert (Hz : gateOk z) by (unfold gateOk, holds; simpl; auto);
      pose proof (addWorkers_gateOk NumCPU z Hz) as Hg
  end.
  exact Hg.
Qed.

Lemma reachable_gateOk p : reachable p -> gateOk p.
Proof.
  intros (available & es & Hr).
  eapply run_gateOk; [apply newParallelManager_gateOk | exact Hr].
Qed.

Lemma total_In b l t : In t l -> weight b t <= total b l.
Proof.
  induction l as [| x l IH]; intros Hin; [destruct Hin |].
  simpl. destruct Hin as [-> | Hin]; [lia |]. specialize (IH Hin). lia.
Qed.

Lemma held_In w t : In t (held w) -> held w = [t].
Proof.
  destruct w; simpl; intros Hin; try contradiction;
    destruct Hin as [-> | []]; reflexivity.
Qed.

Lemma writer_blocks_queue p alloc t :
  writer (barrierSync p) = true -> doQueueTask p alloc t = None.
Proof.
  intros Hw. unfold doQueueTask.
  destruct (enoughMemForUpload p alloc _) as [enough |]; [| reflexivity].
  unfold hold.
  destruct (barrier _); unfold Lock, RLock; rewrite Hw; reflexivity.
Qed.

(** C6: in every state of every run, two workers executing tasks at the same
    moment both execute shared tasks.  More precisely, while a worker holds
    a barrier task (executing it, reporting its result or about to release
    it) the gate is held exclusively, there is no shared hold, no task is on
    offer, no other worker holds a task and no [doQueueTask] gets through;
    and while an admitted barrier task waits for a worker, no worker holds a
    task: the shared holds have drained before it runs. *)
Theorem barrier_task_never_overlaps :
  forall p, reachable p ->
    (forall i j t u,
        i <> j -> executing p i t -> executing p j u ->
        barrier t = false /\ barrier u = false)
    /\ (forall i w t,
          workers p !! i = Some w -> In t (held w) -> barrier t = true ->
          writer (barrierSync p) = true
          /\ readers (barrierSync p) = 0
          /\ queueCh p = []
          /\ (forall j w', j <> i -> workers p !! j = Some w' -> held w' = [])
          /\ (forall alloc t', doQueueTask p alloc t' = None))
    /\ (forall t,
          In t (queueCh p) -> barrier t = true ->
          forall j w', workers p !! j = Some w' -> held w' = []).
Proof.
  intros p Hreach.
  destruct (reachable_gateOk p Hreach) as (Hsh & Hex & Hwr).
  unfold holds in Hsh, Hex.
  assert (Halone : forall i w t,
    workers p !! i = Some w -> In t (held w) -> barrier t = true ->
    writer (barrierSync p) = true
    /\ readers (barrierSync p) = 0
    /\ queueCh p = []
    /\ (forall j w', j <> i -> workers p !! j = Some w' -> held w' = [])
    /\ (forall alloc t', doQueueTask p alloc t' = None)).
  { intros i w t Hi Hin Hb.
    pose proof (held_In w t Hin) as Hheld.
    pose proof (totalHeld_lookup true _ i w Hi) as Hge.
    rewrite Hheld in Hge. simpl in Hge.
    pose proof (weight_same t) as W1. rewrite Hb in W1.
    destruct (writer (barrierSync p)) eqn:Hw; [| lia].
    specialize (Hwr eq_refl).
    split; [reflexivity |]. split; [exact Hwr |].
    split; [apply total_all_zero; lia |].
    split; [| intros alloc t'; apply writer_blocks_queue; exact Hw].
    intros j w' Hne Hj.
    pose proof (totalHeld_two true _ j i w' w Hne Hj Hi) as H2.
    rewrite Hheld in H2. simpl in H2.
    pose proof (totalHeld_lookup false _ j w' Hj) as H3.
    apply total_all_zero; lia. }
  split; [| split].
  - intros i j t u Hne Hi Hj. unfold executing in *.
    destruct (barrier t) eqn:Hbt.
    + destruct (Halone i (Running t) t Hi (or_introl eq_refl) Hbt)
        as (_ & _ & _ & Hothers & _).
      assert (Hji : j <> i) by congruence.
      specialize (Hothers j (Running u) Hji Hj). discriminate.
    + destruct (barrier u) eqn:Hbu; [| split; reflexivity].
      destruct (Halone j (Running u) u Hj (or_introl eq_refl) Hbu)
        as (_ & _ & _ & Hothers & _).
      specialize (Hothers i (Running t) Hne Hi). discriminate.
  - exact Halone.
  - intros t Hin Hb j w' Hj.
    pose proof (total_In true _ t Hin) as Hge.
    pose proof (weight_same t) as W1. rewrite Hb in W1.
    destruct (writer (barrierSync p)) eqn:Hw; [| lia].
    specialize (Hwr eq_refl).
    pose proof (totalHeld_lookup true _ j w' Hj).
    pose proof (totalHeld_lookup false _ j w' Hj).
    apply total_all_zero; lia.
Qed.

End Gate.

Lemma barrier_task_never_overlaps_witness :
  Parallel.barrier (SampleHost.job false 10) = false
  /\ Parallel.barrier (SampleHost.job false 20) = false.
Proof.
  assert (Hr : @Parallel.reachable SampleHost.host SampleHost.twoRunning).
  { exists (Some (10 * 2 ^ 30)), SampleHost.twoShared.
    vm_compute. reflexivity. }
  apply (proj1 (@barrier_task_never_overlaps SampleHost.host
                  SampleHost.twoRunning Hr) 0%nat 1%nat).
  - discriminate.
  - vm_compute. reflexivity.
  - vm_compute. reflexivity.
Defined.

(** ** Mirror Orchestrator *)

Section Orchestrator.

Import Mirror.

Context `{Env}.

Variables sourceAlias targetAlias sourceURL targetURL : string.

Lemma excluded_false patterns m :
  excluded sourceURL targetURL patterns m = false ->
  matchExcludeOptions patterns (Strings.TrimPrefix (FirstURL m) sourceURL) = false
  /\ matchExcludeOptions patterns (Strings.TrimPrefix (SecondURL m) targetURL) = false.
Proof. unfold excluded. apply orb_false_elim. Qed.

(** [matchExcludeOptions] holds exactly when some pattern matches. *)
Lemma matchExcludeOptions_exists patterns suffix :
  matchExcludeOptions patterns suffix = true
  <-> exists pattern, In pattern patterns /\ wildcardMatch pattern suffix = true.
Proof.
  induction patterns as [| q patterns IH]; simpl.
  - split; [discriminate | intros (x & [] & _)].
  - destruct (wildcardMatch q suffix) eqn:Hq.
    + split; [| reflexivity]. intros _. exists q. auto.
    + rewrite IH. split.
      * intros (x & Hin & Hx). exists x. auto.
      * intros (x & [<- | Hin] & Hx); [congruence |]. exists x. auto.
Qed.

Lemma current_excluded opts m :
  dmError m = None -> excluded sourceURL targetURL (excludeOptions opts) m = true ->
  Current.deltaMessage sourceAlias targetAlias sourceURL targetURL opts m = [].
Proof.
  unfold excluded, Current.deltaMessage. intros -> Hx.
  destruct (matchExcludeOptions _ (Strings.TrimPrefix (FirstURL m) _));
    [reflexivity |].
  simpl in Hx. rewrite Hx. reflexivity.
Qed.

Lemma legacy_excluded isFake isOverwrite isRemove patterns m :
  dmError m = None -> excluded sourceURL targetURL patterns m = true ->
  Legacy.deltaMessage sourceAlias targetAlias sourceURL targetURL
    isFake isOverwrite isRemove patterns m = [].
Proof.
  unfold excluded, Legacy.deltaMessage. intros -> Hx.
  destruct (matchExcludeOptions _ (Strings.TrimPrefix (FirstURL m) _));
    [reflexivity |].
  simpl in Hx. rewrite Hx. reflexivity.
Qed.

(** What the two revisions do with a message that carries no error and is
    not excluded: the switch on its tag. *)
Lemma current_switch opts m :
  dmError m = None -> excluded sourceURL targetURL (excludeOptions opts) m = false ->
  Current.deltaMessage sourceAlias targetAlias sourceURL targetURL opts m
  = match Diff m with
    | differInNone => []
    | differInType =>
        [errorResult (errInvalidTarget (SecondURL m)) differInUnknown]
    | differInSize | differInMetadata | differInAASourceMTime =>
        if negb (isOverwrite opts) && negb (isFake opts)
           && negb (activeActive opts)
        then [errorResult (errOverWriteNotAllowed (SecondURL m)) (Diff m)]
        else [copyOf sourceAlias targetAlias sourceURL targetURL m]
    | differInFirst => [copyOf sourceAlias targetAlias sourceURL targetURL m]
    | differInSecond =>
        if negb (isRemove opts) && negb (isFake opts) then []
        else [{| SourceAlias := ""; SourceContent := None;
                 TargetAlias := targetAlias;
                 TargetContent := secondContent m;
                 Error := None; ErrorCond := differInUnknown |}]
    | d =>
        [errorResult
           (Trace (errUnrecognizedDiffType d) [FirstURL m; SecondURL m]) d]
    end.
Proof.
  intros He Hx. destruct (excluded_false _ _ Hx) as [H1 H2].
  unfold Current.deltaMessage. rewrite He, H1, H2. reflexivity.
Qed.

Lemma legacy_switch isFake isOverwrite isRemove patterns m :
  dmError m = None -> excluded sourceURL targetURL patterns m = false ->
  Legacy.deltaMessage sourceAlias targetAlias sourceURL targetURL
    isFake isOverwrite isRemove patterns m
  = match Diff m with
    | differInNone => []
    | differInType =>
        [errorResult (errInvalidTarget (SecondURL m)) differInUnknown]
    | differInSize | differInMetadata | differInMMSourceMTime =>
        if negb isOverwrite && negb isFake
        then [errorResult (errOverWriteNotAllowed (SecondURL m)) differInUnknown]
        else [copyOf sourceAlias targetAlias sourceURL targetURL m]
    | differInFirst => [copyOf sourceAlias targetAlias sourceURL targetURL m]
    | differInSecond =>
        if negb isRemove && negb isFake then []
        else [{| SourceAlias := ""; SourceContent := None;
                 TargetAlias := targetAlias;
                 TargetContent := secondContent m;
                 Error := None; ErrorCond := differInUnknown |}]
    | d =>
        [errorResult
           (Trace (errUnrecognizedDiffType d) [FirstURL m; SecondURL m])
           differInUnknown]
    end.
Proof.
  intros He Hx. destruct (excluded_false _ _ Hx) as [H1 H2].
  unfold Legacy.deltaMessage. rewrite He, H1, H2. reflexivity.
Qed.

(** [deltaSourceTarget] handles the messages of the difference stream one by
    one, in order, once both clients exist. *)
Lemma current_stream source target opts :
  mustExpandAlias (withSeparator source) = (sourceAlias, sourceURL) ->
  mustExpandAlias (withSeparator target) = (targetAlias, targetURL) ->
  newClientFromAlias sourceAlias sourceURL = None ->
  newClientFromAlias targetAlias targetURL = None ->
  Current.deltaSourceTarget source target opts
  = List.flat_map
      (Current.deltaMessage sourceAlias targetAlias sourceURL targetURL opts)
      (objectDifference sourceURL targetURL (isMetadata opts)).
Proof.
  intros Hs Ht Hcs Hct. unfold Current.deltaSourceTarget.
  rewrite Hs, Ht, Hcs, Hct. reflexivity.
Qed.

Lemma legacy_stream source target isFake isOverwrite isRemove isMetadata patterns :
  mustExpandAlias (withSeparator source) = (sourceAlias, sourceURL) ->
  mustExpandAlias (withSeparator target) = (targetAlias, targetURL) ->
  newClientFromAlias sourceAlias sourceURL = None ->
  newClientFromAlias targetAlias targetURL = None ->
  Legacy.deltaSourceTarget source target isFake isOverwrite isRemove
    isMetadata patterns
  = List.flat_map
      (Legacy.deltaMessage sourceAlias targetAlias sourceURL targetURL
         isFake isOverwrite isRemove patterns)
      (objectDifference sourceURL targetURL isMetadata).
Proof.
  intros Hs Ht Hcs Hct. unfold Legacy.deltaSourceTarget.
  rewrite Hs, Ht, Hcs, Hct. reflexivity.
Qed.

(** C5, as the code has it: a message that carries no error and whose
    source suffix or target suffix matches one of the exclude patterns
    yields nothing, in both revisions and under every setting of the
    flags. *)
Theorem excluded_message_dropped :
  forall patterns m,
    dmError m = None ->
    (exists pattern, In pattern patterns
       /\ (wildcardMatch pattern (Strings.TrimPrefix (FirstURL m) sourceURL) = true
           \/ wildcardMatch pattern (Strings.TrimPrefix (SecondURL m) targetURL) = true)) ->
    (forall opts, excludeOptions opts = patterns ->
       Current.deltaMessage sourceAlias targetAlias sourceURL targetURL opts m = [])
    /\ (forall isFake isOverwrite isRemove,
          Legacy.deltaMessage sourceAlias targetAlias sourceURL targetURL
            isFake isOverwrite isRemove patterns m = []).
Proof.
  intros patterns m He (pattern & Hin & Hmatch).
  assert (Hx : excluded sourceURL targetURL patterns m = true).
  { unfold excluded. apply orb_true_iff.
    destruct Hmatch as [Hm | Hm]; [left | right];
      apply matchExcludeOptions_exists; exists pattern; auto. }
  split.
  - intros opts <-. apply current_excluded; assumption.
  - intros. apply legacy_excluded; assumption.
Qed.

(** C3: a message classified as only-in-target yields nothing when neither
    remove nor dry-run is set: no removal and no error, in both revisions. *)
Theorem only_in_target_dropped_without_remove :
  forall m,
    classified m differInSecond ->
    (forall opts,
        isRemove opts = false -> isFake opts = false ->
        Current.deltaMessage sourceAlias targetAlias sourceURL targetURL opts m = [])
    /\ (forall isOverwrite patterns,
          Legacy.deltaMessage sourceAlias targetAlias sourceURL targetURL
            false isOverwrite false patterns m = []).
Proof.
  intros m [He Hd]. split.
  - intros opts Hr Hf.
    destruct (excluded sourceURL targetURL (excludeOptions opts) m) eqn:Hx.
    + apply current_excluded; assumption.
    + rewrite current_switch by assumption. rewrite Hd, Hr, Hf. reflexivity.
  - intros isOverwrite patterns.
    destruct (excluded sourceURL targetURL patterns m) eqn:Hx.
    + apply legacy_excluded; assumption.
    + rewrite legacy_switch by assumption. rewrite Hd. reflexivity.
Qed.

(** C4: a message classified as only-in-source and not excluded yields
    exactly one message, whatever the flags: no error, the source entry of
    the event as its source, and as its target the URL made of the target
    root joined with the source suffix.  It is a copy as soon as the event
    carries its source entry. *)
Theorem only_in_source_always_copied :
  forall patterns m,
    classified m differInFirst ->
    excluded sourceURL targetURL patterns m = false ->
    let copy :=
      {| SourceAlias := sourceAlias;
         SourceContent := firstContent m;
         TargetAlias := targetAlias;
         TargetContent :=
           Some {| URL := newClientURL
                            (urlJoinPath targetURL
                               (Strings.TrimPrefix (FirstURL m) sourceURL)) |};
         Error := None; ErrorCond := differInUnknown |} in
    (forall opts, excludeOptions opts = patterns ->
       Current.deltaMessage sourceAlias targetAlias sourceURL targetURL opts m
       = [copy])
    /\ (forall isFake isOverwrite isRemove,
          Legacy.deltaMessage sourceAlias targetAlias sourceURL targetURL
            isFake isOverwrite isRemove patterns m = [copy])
    /\ isErrorResult copy = false
    /\ isRemoveTask copy = negb (isSome (firstContent m))
    /\ isCopyTask copy = isSome (firstContent m).
Proof.
  intros patterns m [He Hd] Hx copy.
  split; [| split; [| split; [| split]]].
  - intros opts <-. rewrite current_switch by assumption.
    rewrite Hd. reflexivity.
  - intros. rewrite legacy_switch by assumption. rewrite Hd. reflexivity.
  - reflexivity.
  - unfold isRemoveTask, isErrorResult. simpl. rewrite andb_true_r. reflexivity.
  - reflexivity.
Qed.

(** C2, as the code has it: for a message classified as a size, metadata or
    timestamp difference, with overwrite and dry-run unset (and, in the
    revision that has it, active-active unset), no copy is emitted; the
    message yields exactly the overwrite-not-allowed error for its target
    URL unless it is excluded, in which case it yields nothing. *)
Theorem mismatch_without_overwrite_is_an_error :
  forall m d,
    d = differInSize \/ d = differInMetadata \/ d = differInAASourceMTime ->
    classified m d ->
    (forall opts,
        isOverwrite opts = false -> isFake opts = false ->
        activeActive opts = false ->
        let out := Current.deltaMessage sourceAlias targetAlias sourceURL
                     targetURL opts m in
        (forall u, In u out -> isCopyTask u = false)
        /\ out = if excluded sourceURL targetURL (excludeOptions opts) m then []
                 else [errorResult (errOverWriteNotAllowed (SecondURL m)) d])
    /\ (forall isRemove patterns,
          let out := Legacy.deltaMessage sourceAlias targetAlias sourceURL
                       targetURL false false isRemove patterns m in
          (forall u, In u out -> isCopyTask u = false)
          /\ out = if excluded sourceURL targetURL patterns m then []
                   else [errorResult (errOverWriteNotAllowed (SecondURL m))
                           differInUnknown]).
Proof.
  intros m d Hkind [He Hd].
  split.
  - intros opts Ho Hf Ha out.
    assert (Hout : out = if excluded sourceURL targetURL (excludeOptions opts) m then []
                         else [errorResult
                                 (errOverWriteNotAllowed (SecondURL m)) d]).
    { unfold out. destruct (excluded sourceURL targetURL (excludeOptions opts) m) eqn:Hx.
      - apply current_excluded; assumption.
      - rewrite current_switch by assumption. rewrite Hd, Ho, Hf, Ha.
        destruct Hkind as [-> | [-> | ->]]; reflexivity. }
    split; [| exact Hout].
    intros u Hin. rewrite Hout in Hin.
    destruct (excluded sourceURL targetURL (excludeOptions opts) m); [destruct Hin |].
    destruct Hin as [<- | []]. reflexivity.
  - intros isRemove patterns out.
    assert (Hout : out = if excluded sourceURL targetURL patterns m then []
                         else [errorResult
                                 (errOverWriteNotAllowed (SecondURL m))
                                 differInUnknown]).
    { unfold out. destruct (excluded sourceURL targetURL patterns m) eqn:Hx.
      - apply legacy_excluded; assumption.
      - rewrite legacy_switch by assumption. rewrite Hd.
        destruct Hkind as [-> | [-> | ->]]; reflexivity. }
    split; [| exact Hout].
    intros u Hin. rewrite Hout in Hin.
    destruct (excluded sourceURL targetURL patterns m); [destruct Hin |].
    destruct Hin as [<- | []]. reflexivity.
Qed.

End Orchestrator.

(** *** Concrete events *)

Local Open Scope string_scope.

Lemma excluded_message_dropped_witness :
  @Mirror.Current.deltaMessage (Sample.env []) "src" "dst" "play/src/" "play/dst/"
    (Sample.options false true true false ["*.tmp"])
    (Sample.message "play/src/a.tmp" "" Mirror.differInFirst) = [].
Proof.
  refine (proj1 (@excluded_message_dropped (Sample.env [])
                   "src" "dst" "play/src/" "play/dst/" ["*.tmp"]
                   (Sample.message "play/src/a.tmp" "" Mirror.differInFirst)
                   eq_refl _)
            (Sample.options false true true false ["*.tmp"]) eq_refl).
  exists "*.tmp". split; [left; reflexivity | left; reflexivity].
Defined.

(** C5 does not hold for a message that carries an error: the error is sent
    on before the exclude patterns are looked at, in both revisions. *)
Lemma excluded_message_counterexample :
  let m := {| Mirror.FirstURL := "play/src/a.tmp"; Mirror.SecondURL := "";
              Mirror.Diff := Mirror.differInFirst;
              Mirror.dmError := Some (Mirror.errExternal "listing failed");
              Mirror.firstContent := None; Mirror.secondContent := None |} in
  Sample.globMatch "*.tmp" (Strings.TrimPrefix (Mirror.FirstURL m) "play/src/")
  = true
  /\ @Mirror.Current.deltaMessage (Sample.env []) "src" "dst"
       "play/src/" "play/dst/"
       (Sample.options false false false false ["*.tmp"]) m
     = [Mirror.errorResult (Mirror.errExternal "listing failed")
          Mirror.differInUnknown]
  /\ @Mirror.Legacy.deltaMessage (Sample.env []) "src" "dst"
       "play/src/" "play/dst/" false false false ["*.tmp"] m
     = [Mirror.errorResult (Mirror.errExternal "listing failed")
          Mirror.differInUnknown].
Proof. vm_compute. repeat split. Qed.

Lemma only_in_target_dropped_without_remove_witness :
  @Mirror.Current.deltaMessage (Sample.env []) "src" "dst" "play/src/" "play/dst/"
    (Sample.options false true false false [])
    (Sample.message "" "play/dst/c" Mirror.differInSecond) = [].
Proof.
  apply (proj1 (@only_in_target_dropped_without_remove (Sample.env [])
                  "src" "dst" "play/src/" "play/dst/"
                  (Sample.message "" "play/dst/c" Mirror.differInSecond)
                  (conj eq_refl eq_refl))
           (Sample.options false true false false []));
    reflexivity.
Defined.

Lemma only_in_source_always_copied_witness :
  @Mirror.Current.deltaMessage (Sample.env []) "src" "dst" "play/src/" "play/dst/"
    (Sample.options false false false false ["*.tmp"])
    (Sample.message "play/src/dir/a" "" Mirror.differInFirst)
  = [{| Mirror.SourceAlias := "src";
        Mirror.SourceContent := Some (Sample.content "play/src/dir/a");
        Mirror.TargetAlias := "dst";
        Mirror.TargetContent := Some (Sample.content "play/dst/dir/a");
        Mirror.Error := None; Mirror.ErrorCond := Mirror.differInUnknown |}].
Proof.
  apply (proj1 (@only_in_source_always_copied (Sample.env [])
                  "src" "dst" "play/src/" "play/dst/" ["*.tmp"]
                  (Sample.message "play/src/dir/a" "" Mirror.differInFirst)
                  (conj eq_refl eq_refl) eq_refl)
           (Sample.options false false false false ["*.tmp"]) eq_refl).
Defined.

Lemma mismatch_without_overwrite_is_an_error_witness :
  @Mirror.Current.deltaMessage (Sample.env []) "src" "dst" "play/src/" "play/dst/"
    (Sample.options false false true false [])
    (Sample.message "play/src/b" "play/dst/b" Mirror.differInSize)
  = [Mirror.errorResult (Mirror.errOverWriteNotAllowed "play/dst/b")
       Mirror.differInSize].
Proof.
  apply (proj2 (proj1 (@mismatch_without_overwrite_is_an_error (Sample.env [])
                  "src" "dst" "play/src/" "play/dst/"
                  (Sample.message "play/src/b" "play/dst/b" Mirror.differInSize)
                  Mirror.differInSize (or_introl eq_refl)
                  (conj eq_refl eq_refl))
           (Sample.options false false true false []) eq_refl eq_refl eq_refl)).
Defined.

(** C2 does not hold as stated.  With overwrite and dry-run unset, the
    current revision still emits a copy when active-active is set; and in
    both revisions an excluded message yields no error result. *)
Lemma mismatch_without_overwrite_counterexample :
  let m := Sample.message "play/src/b" "play/dst/b" Mirror.differInSize in
  let t := Sample.message "play/src/b.tmp" "play/dst/b.tmp" Mirror.differInSize in
  (exists u,
      @Mirror.Current.deltaMessage (Sample.env []) "src" "dst"
        "play/src/" "play/dst/" (Sample.options false false false true []) m
      = [u]
      /\ Mirror.isCopyTask u = true /\ Mirror.isErrorResult u = false)
  /\ @Mirror.Current.deltaMessage (Sample.env []) "src" "dst"
       "play/src/" "play/dst/" (Sample.options false false false false ["*.tmp"]) t
     = []
  /\ @Mirror.Legacy.deltaMessage (Sample.env []) "src" "dst"
       "play/src/" "play/dst/" false false false ["*.tmp"] t
     = [].
Proof.
  split; [| split; vm_compute; reflexivity].
  eexists. split; [vm_compute; reflexivity | split; reflexivity].
Qed.

(** ** Content Difference Engine *)

Section DifferenceEngine.

Import Difference.

Variable classify : strategy.

Lemma keyLt_trans a b c : keyLt a b -> keyLt b c -> keyLt a c.
Proof.
  unfold keyLt. intros Hab Hbc.
  apply (proj2 (OrderedTypeEx.String_as_OT.cmp_lt a c)).
  apply (proj1 (OrderedTypeEx.String_as_OT.cmp_lt a b)) in Hab.
  apply (proj1 (OrderedTypeEx.String_as_OT.cmp_lt b c)) in Hbc.
  eapply OrderedTypeEx.String_as_OT.lt_trans; eassumption.
Qed.

Lemma compare_refl a : String.compare a a = Eq.
Proof. apply (proj2 (OrderedTypeEx.String_as_OT.cmp_eq a a)). reflexivity. Qed.

Lemma keyLt_irrefl a : ~ keyLt a a.
Proof. unfold keyLt. rewrite compare_refl. discriminate. Qed.

Lemma compare_Gt a b : String.compare a b = Gt -> keyLt b a.
Proof.
  unfold keyLt. intros Hgt. rewrite String.compare_antisym, Hgt. reflexivity.
Qed.

(** The three unfoldings of the merge. *)
Lemma difference_nil_r src : difference classify src [] = List.map sourceOnly src.
Proof. destruct src; reflexivity. Qed.

Lemma difference_cons s src t tgt :
  difference classify (s :: src) (t :: tgt)
  = match String.compare (itemKey s) (itemKey t) with
    | Eq => compareItems classify s t :: difference classify src tgt
    | Lt => sourceOnly s :: difference classify src (t :: tgt)
    | Gt => targetOnly t :: difference classify (s :: src) tgt
    end.
Proof. reflexivity. Qed.

Lemma eventKey_sourceOnly i : eventKey (sourceOnly i) = itemKey i.
Proof. destruct i; reflexivity. Qed.

Lemma eventKey_targetOnly i : eventKey (targetOnly i) = itemKey i.
Proof. destruct i; reflexivity. Qed.

Lemma eventKey_compareItems s t :
  itemKey s = itemKey t -> eventKey (compareItems classify s t) = itemKey s.
Proof.
  destruct s as [es | k], t as [et | k']; simpl; intros Heq;
    try congruence.
  destruct (classify es et); reflexivity.
Qed.

Lemma ascending_inv s l :
  ascending (s :: l) ->
  ascending l /\ forall i, In i l -> keyLt (itemKey s) (itemKey i).
Proof.
  unfold ascending. simpl. intros Hs.
  apply StronglySorted_inv in Hs as [Hl Hall].
  split; [exact Hl |].
  intros i Hi. rewrite List.Forall_forall in Hall.
  apply Hall. apply in_map. exact Hi.
Qed.

(** Every event comes from a key of one of the listings, and every key of
    the listings has an event. *)
Lemma difference_keys src : forall tgt k,
  In k (List.map eventKey (difference classify src tgt))
  <-> In k (List.map itemKey src) \/ In k (List.map itemKey tgt).
Proof.
  induction src as [| s src IHs]; intros tgt k.
  - simpl. rewrite List.map_map.
    rewrite (List.map_ext _ itemKey eventKey_targetOnly). tauto.
  - induction tgt as [| t tgt IHt].
    + rewrite difference_nil_r, List.map_map.
      rewrite (List.map_ext _ itemKey eventKey_sourceOnly). simpl. tauto.
    + rewrite difference_cons.
      destruct (String.compare (itemKey s) (itemKey t)) eqn:Hc; simpl.
      * apply String.compare_eq_iff in Hc.
        rewrite (eventKey_compareItems s t Hc), IHs, <- Hc. tauto.
      * rewrite eventKey_sourceOnly, IHs. simpl. tauto.
      * rewrite eventKey_targetOnly, IHt. simpl. tauto.
Qed.

(** Events are emitted in ascending key order. *)
Lemma difference_sorted src : forall tgt,
  ascending src -> ascending tgt ->
  StronglySorted keyLt (List.map eventKey (difference classify src tgt)).
Proof.
  induction src as [| s src IHs]; intros tgt Hsrc Htgt.
  - simpl. rewrite List.map_map.
    rewrite (List.map_ext _ itemKey eventKey_targetOnly). exact Htgt.
  - induction tgt as [| t tgt IHt].
    + rewrite difference_nil_r, List.map_map.
      rewrite (List.map_ext _ itemKey eventKey_sourceOnly). exact Hsrc.
    + destruct (ascending_inv _ _ Hsrc) as [Hsrc' Hs].
      destruct (ascending_inv _ _ Htgt) as [Htgt' Ht].
      assert (Hin : forall (l : list ListingItem) k,
                 In k (List.map itemKey l) -> exists i, In i l /\ itemKey i = k).
      { intros l k Hk. apply in_map_iff in Hk as (i & Hi & Hin).
        exists i. auto. }
      rewrite difference_cons.
      destruct (String.compare (itemKey s) (itemKey t)) eqn:Hc;
        rewrite List.map_cons.
      * apply String.compare_eq_iff in Hc.
        rewrite (eventKey_compareItems s t Hc).
        constructor; [apply IHs; assumption |].
        apply List.Forall_forall. intros k Hk.
        apply difference_keys in Hk as [Hk | Hk];
          apply Hin in Hk as (i & Hi & <-).
        -- apply Hs. exact Hi.
        -- rewrite Hc. apply Ht. exact Hi.
      * rewrite eventKey_sourceOnly.
        constructor; [apply IHs; assumption |].
        apply List.Forall_forall. intros k Hk.
        apply difference_keys in Hk as [Hk | Hk];
          apply Hin in Hk as (i & Hi & <-).
        -- apply Hs. exact Hi.
        -- destruct Hi as [<- | Hi]; [exact Hc |].
           eapply keyLt_trans; [exact Hc | apply Ht; exact Hi].
      * rewrite eventKey_targetOnly. apply compare_Gt in Hc.
        constructor; [apply IHt; assumption |].
        apply List.Forall_forall. intros k Hk.
        apply difference_keys in Hk as [Hk | Hk];
          apply Hin in Hk as (i & Hi & <-).
        -- destruct Hi as [<- | Hi]; [exact Hc |].
           eapply keyLt_trans; [exact Hc | apply Hs; exact Hi].
        -- apply Ht. exact Hi.
Qed.

Lemma sorted_NoDup l : StronglySorted keyLt l -> List.NoDup l.
Proof.
  induction 1 as [| a l Hl IH Hall]; constructor; [| exact IH].
  intros Hin. rewrite List.Forall_forall in Hall.
  exact (keyLt_irrefl a (Hall a Hin)).
Qed.

(** The event of a position of the source listing: a comparison with the
    position of the same key on the target side when there is one, a
    source-only event when the key is absent from the target. *)
Lemma source_events src : forall tgt,
  ascending src -> ascending tgt ->
  forall i, In i src ->
    (forall j, In j tgt -> itemKey j = itemKey i ->
       In (compareItems classify i j) (difference classify src tgt))
    /\ (~ In (itemKey i) (List.map itemKey tgt) ->
        In (sourceOnly i) (difference classify src tgt)).
Proof.
  induction src as [| s src IHs]; intros tgt Hsrc Htgt i Hi; [destruct Hi |].
  induction tgt as [| t tgt IHt].
  - rewrite difference_nil_r. split; [intros j [] |].
    intros _. apply in_map. exact Hi.
  - destruct (ascending_inv _ _ Hsrc) as [Hsrc' Hs].
    destruct (ascending_inv _ _ Htgt) as [Htgt' Ht].
    rewrite difference_cons.
    destruct (String.compare (itemKey s) (itemKey t)) eqn:Hc.
    + apply String.compare_eq_iff in Hc. destruct Hi as [<- | Hi].
      * split.
        -- intros j [<- | Hj] Hk; [left; reflexivity |].
           exfalso. apply (keyLt_irrefl (itemKey s)).
           pose proof (Ht j Hj) as Hlt. rewrite Hk, <- Hc in Hlt. exact Hlt.
        -- intros Hn. exfalso. apply Hn. left. symmetry. exact Hc.
      * destruct (IHs tgt Hsrc' Htgt' i Hi) as [IHa IHb]. split.
        -- intros j [<- | Hj] Hk.
           ++ exfalso. apply (keyLt_irrefl (itemKey s)).
              pose proof (Hs i Hi) as Hlt. rewrite <- Hk, <- Hc in Hlt.
              exact Hlt.
           ++ right. apply IHa; assumption.
        -- intros Hn. right. apply IHb. intros Hin. apply Hn. right. exact Hin.
    + destruct Hi as [<- | Hi].
      * split; [| intros _; left; reflexivity].
        intros j [<- | Hj] Hk; exfalso.
        -- unfold keyLt in *. rewrite Hk, compare_refl in Hc. discriminate.
        -- apply (keyLt_irrefl (itemKey s)).
           pose proof (Ht j Hj) as Hlt. rewrite Hk in Hlt.
           eapply keyLt_trans; [exact Hc | exact Hlt].
      * destruct (IHs (t :: tgt) Hsrc' Htgt i Hi) as [IHa IHb]. split.
        -- intros j Hj Hk. right. apply IHa; assumption.
        -- intros Hn. right. apply IHb. exact Hn.
    + apply compare_Gt in Hc. destruct (IHt Htgt') as [IHa IHb].
      assert (Hti : keyLt (itemKey t) (itemKey i)).
      { destruct Hi as [<- | Hi]; [exact Hc |].
        eapply keyLt_trans; [exact Hc | apply Hs; exact Hi]. }
      split.
      * intros j [<- | Hj] Hk.
        -- exfalso. rewrite Hk in Hti. exact (keyLt_irrefl _ Hti).
        -- right. apply IHa; assumption.
      * intros Hn. right. apply IHb. intros Hin. apply Hn. right. exact Hin.
Qed.

(** The event of a position of the target listing whose key is absent from
    the source. *)
Lemma target_events src : forall tgt,
  ascending src -> ascending tgt ->
  forall j, In j tgt -> ~ In (itemKey j) (List.map itemKey src) ->
    In (targetOnly j) (difference classify src tgt).
Proof.
  induction src as [| s src IHs]; intros tgt Hsrc Htgt j Hj Hn.
  - apply (in_map targetOnly). exact Hj.
  - induction tgt as [| t tgt IHt]; [destruct Hj |].
    destruct (ascending_inv _ _ Hsrc) as [Hsrc' Hs].
    destruct (ascending_inv _ _ Htgt) as [Htgt' Ht].
    assert (Hn' : ~ In (itemKey j) (List.map itemKey src)).
    { intros Hin. apply Hn. right. exact Hin. }
    rewrite difference_cons.
    destruct (String.compare (itemKey s) (itemKey t)) eqn:Hc.
    + apply String.compare_eq_iff in Hc. destruct Hj as [<- | Hj].
      * exfalso. apply Hn. left. exact Hc.
      * right. apply IHs; assumption.
    + right. apply IHs; assumption.
    + destruct Hj as [<- | Hj]; [left; reflexivity |].
      right. apply IHt; assumption.
Qed.

(** C1: for listings with unique keys in ascending order, the keys of the
    events are in ascending order; every key of either listing has exactly
    one event and no other key has any; a key read on both sides has the
    comparison event of its two entries, a key read on one side only has the
    only-in-source or only-in-target event of its entry. *)
Theorem difference_one_event_per_key :
  forall src tgt,
    ascending src -> ascending tgt ->
    let events := difference classify src tgt in
    let keys := List.map eventKey events in
    StronglySorted keyLt keys
    /\ (forall k,
          In k (List.map itemKey src) \/ In k (List.map itemKey tgt) ->
          count_occ string_dec keys k = 1%nat)
    /\ (forall k,
          ~ (In k (List.map itemKey src) \/ In k (List.map itemKey tgt)) ->
          count_occ string_dec keys k = 0%nat)
    /\ (forall s t,
          In (Listed s) src -> In (Listed t) tgt -> key s = key t ->
          In (comparisonEvent (classify s t) s t) events)
    /\ (forall s,
          In (Listed s) src -> ~ In (key s) (List.map itemKey tgt) ->
          In (OnlyInSource s) events)
    /\ (forall t,
          In (Listed t) tgt -> ~ In (key t) (List.map itemKey src) ->
          In (OnlyInTarget t) events).
Proof.
  intros src tgt Hsrc Htgt events keys.
  pose proof (difference_sorted src tgt Hsrc Htgt) as Hsorted.
  split; [exact Hsorted |].
  split; [| split; [| split; [| split]]].
  - intros k Hk.
    apply (proj1 (List.NoDup_count_occ' string_dec keys)).
    + apply sorted_NoDup. exact Hsorted.
    + apply difference_keys. exact Hk.
  - intros k Hk. apply count_occ_not_In. intros Hin. apply Hk.
    apply difference_keys in Hin. exact Hin.
  - intros s t Hs Ht Hkey.
    destruct (source_events src tgt Hsrc Htgt (Listed s) Hs) as [Hboth _].
    apply (Hboth (Listed t) Ht). symmetry. exact Hkey.
  - intros s Hs Hn.
    destruct (source_events src tgt Hsrc Htgt (Listed s) Hs) as [_ Honly].
    apply Honly. exact Hn.
  - intros t Ht Hn.
    apply (target_events src tgt Hsrc Htgt (Listed t) Ht). exact Hn.
Qed.

End DifferenceEngine.

Lemma difference_one_event_per_key_witness :
  Difference.difference Difference.byAttributes
    [Difference.Listed (Difference.entry "a" 5);
     Difference.Listed (Difference.entry "b" 10)]
    [Difference.Listed (Difference.entry "b" 10);
     Difference.Listed (Difference.entry "c" 1)]
  = [Difference.OnlyInSource (Difference.entry "a" 5);
     Difference.Identical (Difference.entry "b" 10) (Difference.entry "b" 10);
     Difference.OnlyInTarget (Difference.entry "c" 1)]
  /\ StronglySorted Difference.keyLt
       (List.map Difference.eventKey
          (Difference.difference Difference.byAttributes
             [Difference.Listed (Difference.entry "a" 5);
              Difference.Listed (Difference.entry "b" 10)]
             [Difference.Listed (Difference.entry "b" 10);
              Difference.Listed (Difference.entry "c" 1)])).
Proof.
  split; [reflexivity |].
  apply (difference_one_event_per_key Difference.byAttributes);
    unfold Difference.ascending; simpl;
    repeat (constructor; try reflexivity).
Defined.

(** *** Scenarios A and B of the spec, end to end

    Source [{a, b}], target [{b, c}], [b] identical on both sides: with
    overwrite and remove set the mirror copies [a] and removes [c]; without
    remove it only copies [a]. *)

Example scenario_A :
  List.map (fun u => (Mirror.isCopyTask u, Mirror.isRemoveTask u,
                      Mirror.Path (Mirror.URL
                        (match Mirror.TargetContent u with
                         | Some c => c
                         | None => Sample.content ""
                         end))))
    (@Mirror.Current.deltaSourceTarget (Sample.env Sample.scenarioStream)
       "play/src" "play/dst" (Sample.options false true true false []))
  = [(true, false, "play/dst/a"); (false, true, "play/dst/c")].
Proof. reflexivity. Qed.

Example scenario_B :
  List.map (fun u => (Mirror.isCopyTask u, Mirror.isRemoveTask u,
                      Mirror.Path (Mirror.URL
                        (match Mirror.TargetContent u with
                         | Some c => c
                         | None => Sample.content ""
                         end))))
    (@Mirror.Current.deltaSourceTarget (Sample.env Sample.scenarioStream)
       "play/src" "play/dst" (Sample.options false true false false []))
  = [(true, false, "play/dst/a")].
Proof. reflexivity. Qed.

(** * Further properties of the code *)

Local Close Scope string_scope.
Local Open Scope Z_scope.

(** ** Memory estimate and admission *)

Section MemoryAdmission.

Import Mirror Parallel.

(** The guard [uploadSize < 0] of [enoughMemForUpload] can never fire on an
    unsigned argument: the function always returns, and [doQueueTask] always
    goes on to take a hold, for the task as submitted when there is enough
    memory and for the task made a barrier otherwise. *)
Theorem enoughMemForUpload_never_panics :
  forall p alloc t,
    exists enough,
      enoughMemForUpload p alloc (Int.uint64 (uploadSize t)) = Returns enough
      /\ doQueueTask p alloc t = hold p (if enough then t else withBarrier t).
Proof.
  intros p alloc t.
  pose proof (uint64_nonneg (uploadSize t)) as Hn.
  unfold doQueueTask, enoughMemForUpload.
  destruct (Z.ltb_spec (Int.uint64 (uploadSize t)) 0) as [Hneg | _]; [lia |].
  destruct ((Int.uint64 (uploadSize t) =? 0) || (maxMem p =? 0)).
  - exists true. split; reflexivity.
  - match goal with
    | |- context [Returns ?b] => exists b; destruct b; split; reflexivity
    end.
Qed.

(** The estimate never exceeds the size and never exceeds three parts of
    128 MiB (402653184 bytes), and it grows with the size. *)
Theorem estimate_bounded_and_monotone :
  forall a b,
    0 <= a <= b -> b < 2 ^ 64 ->
    0 <= estimateNeededMemoryForUpload a
    /\ estimateNeededMemoryForUpload a <= a
    /\ estimateNeededMemoryForUpload a <= 402653184
    /\ estimateNeededMemoryForUpload a <= estimateNeededMemoryForUpload b.
Proof.
  intros a b Hab Hb.
  rewrite (estimate_capped a) by lia. rewrite (estimate_capped b) by lia.
  change (3 * partSize) with 402653184. lia.
Qed.

Lemma estimate_bounded_and_monotone_witness :
  estimateNeededMemoryForUpload (2 ^ 20)
  <= estimateNeededMemoryForUpload (2 ^ 40).
Proof.
  apply (estimate_bounded_and_monotone (2 ^ 20) (2 ^ 40)); lia.
Defined.

(** A task whose size is negative (a size that is not known) is converted
    to a huge unsigned size, so it is accounted as three parts: with a
    non-zero budget it is admitted as submitted exactly when three parts
    plus the allocated memory, in 64 bits, are below the budget. *)
Theorem negative_size_counts_as_three_parts :
  forall p alloc t,
    - 2 ^ 63 <= uploadSize t < 0 ->
    maxMem p <> 0 ->
    enoughMemForUpload p alloc (Int.uint64 (uploadSize t))
    = Returns (Int.uint64 (402653184 + alloc) <? maxMem p).
Proof.
  intros p alloc t Hsize Hmax.
  assert (Hu : Int.uint64 (uploadSize t) = uploadSize t + 2 ^ 64).
  { unfold Int.uint64.
    rewrite <- (Z.mod_add (uploadSize t) 1 (2 ^ 64)) by lia.
    apply Z.mod_small. lia. }
  unfold enoughMemForUpload. rewrite Hu.
  destruct (Z.ltb_spec (uploadSize t + 2 ^ 64) 0) as [Hneg | _]; [lia |].
  destruct (Z.eqb_spec (uploadSize t + 2 ^ 64) 0) as [Hz | _]; [lia |].
  destruct (Z.eqb_spec (maxMem p) 0) as [Hz | _]; [contradiction |].
  simpl. rewrite estimate_capped by lia.
  change (3 * partSize) with 402653184.
  rewrite Z.min_r by lia. reflexivity.
Qed.

Lemma negative_size_counts_as_three_parts_witness :
  enoughMemForUpload SampleHost.large 0
    (Int.uint64 (uploadSize (SampleHost.job false (-1))))
  = Returns (Int.uint64 (402653184 + 0) <? maxMem SampleHost.large).
Proof.
  apply (negative_size_counts_as_three_parts SampleHost.large 0
           (SampleHost.job false (-1))).
  - simpl. lia.
  - vm_compute. discriminate.
Defined.

(** Admission is monotone in the memory in use: a size that is admitted
    as submitted when [alloc] bytes are allocated is admitted as submitted
    when fewer are. *)
Theorem admission_monotone_in_allocation :
  forall p size alloc alloc',
    0 <= size < 2 ^ 64 ->
    0 <= alloc' <= alloc ->
    alloc + 402653184 < 2 ^ 64 ->
    enoughMemForUpload p alloc size = Returns true ->
    enoughMemForUpload p alloc' size = Returns true.
Proof.
  intros p size alloc alloc' Hsize Ha Hfit.
  unfold enoughMemForUpload.
  destruct (size <? 0); [discriminate |].
  destruct ((size =? 0) || (maxMem p =? 0)); [reflexivity |].
  rewrite (estimate_capped size) by lia.
  change (3 * partSize) with 402653184.
  rewrite !uint64_small by lia.
  intros Hen. injection Hen as Hen. f_equal.
  apply Z.ltb_lt in Hen. apply Z.ltb_lt. lia.
Qed.

Lemma admission_monotone_in_allocation_witness :
  enoughMemForUpload SampleHost.large 0 (2 ^ 20) = Returns true.
Proof.
  apply (admission_monotone_in_allocation SampleHost.large (2 ^ 20)
           (2 ^ 30) 0); try lia.
  vm_compute. reflexivity.
Defined.

End MemoryAdmission.

(** ** The pool, the queue and the results *)

Section Pool.

Import Mirror Parallel Accounting.

Context `{Runtime}.

Lemma tally_insert f (ws : list worker) : forall i x y,
  ws !! i = Some x ->
  (tally f (<[i := y]> ws) + (if f x then 1 else 0)
   = tally f ws + (if f y then 1 else 0))%nat.
Proof.
  induction ws as [| w ws IH]; intros i x y Hi; [discriminate |].
  destruct i as [| i]; simpl in *.
  - injection Hi as ->. lia.
  - pose proof (IH i x y Hi). lia.
Qed.

Lemma tally_snoc f ws w :
  tally f (ws ++ [w]) = (tally f ws + (if f w then 1 else 0))%nat.
Proof. induction ws as [| x ws IH]; simpl; [lia | rewrite IH; lia]. Qed.

Lemma tally_none f (ws : list worker) :
  tally f ws = 0%nat -> forall i w, ws !! i = Some w -> f w = false.
Proof.
  induction ws as [| x ws IH]; intros Hz i w Hi; [discriminate |].
  simpl in Hz. destruct i as [| i]; simpl in Hi.
  - injection Hi as ->. destruct (f w); [lia | reflexivity].
  - apply (IH ltac:(lia) i w Hi).
Qed.

Lemma length_delete_lookup (l : list task) : forall k t,
  l !! k = Some t -> length l = S (length (delete k l)).
Proof.
  induction l as [| x l IH]; intros k t Hk; [discriminate |].
  destruct k as [| k]; simpl in *; [reflexivity |].
  rewrite (IH k t Hk). reflexivity.
Qed.

Lemma addWorker_frame p :
  sameChannels p (addWorker p) /\ monitor (addWorker p) = monitor p.
Proof.
  unfold sameChannels, addWorker.
  destruct (maxParallelWorkers <=? workersNum p); simpl; tauto.
Qed.

Lemma addWorkers_frame n p :
  sameChannels p (addWorkers n p) /\ monitor (addWorkers n p) = monitor p.
Proof.
  unfold addWorkers. induction (Z.to_nat n) as [| k IH].
  - unfold sameChannels. simpl. tauto.
  - rewrite Nat.iter_succ.
    destruct (addWorker_frame (Nat.iter k addWorker p)) as [Hf Hm].
    destruct IH as [IHf IHm]. unfold sameChannels in *.
    intuition congruence.
Qed.

Lemma monitorTick_frame p : sameChannels p (monitorTick p).
Proof.
  unfold monitorTick.
  destruct (negb (running (monitor p))); [unfold sameChannels; tauto |].
  destruct (_ <=? _); [destruct (_ <? _) |];
    try (unfold sameChannels; simpl; tauto);
    match goal with
    | |- sameChannels p (addWorkers ?n ?q) =>
        destruct (addWorkers_frame n q) as [Hf _];
        unfold sameChannels in *; simpl in Hf; exact Hf
    end.
Qed.

(** Preservation of the pool counters. *)
Lemma addWorker_poolOk p : poolOk p -> poolOk (addWorker p).
Proof.
  unfold poolOk, addWorker, maxParallelWorkers.
  intros (Hn & Hw & Hlen).
  destruct (Z.leb_spec 128 (workersNum p)) as [Hfull | Hroom];
    [tauto |].
  simpl. rewrite List.length_app, tally_snoc. simpl.
  unfold Int.uint32. rewrite Z.mod_small by lia.
  repeat split; lia.
Qed.

Lemma addWorkers_poolOk n p : poolOk p -> poolOk (addWorkers n p).
Proof.
  intros Hp. unfold addWorkers.
  induction (Z.to_nat n) as [| k IH]; [exact Hp |].
  rewrite Nat.iter_succ. apply addWorker_poolOk. exact IH.
Qed.

Lemma monitorTick_poolOk p : poolOk p -> poolOk (monitorTick p).
Proof.
  intros Hp. unfold monitorTick.
  destruct (negb (running (monitor p))); [exact Hp |].
  destruct (_ <=? _); [destruct (_ <? _) |];
    [exact Hp | |]; apply addWorkers_poolOk; exact Hp.
Qed.

Ltac lookup_insert f :=
  match goal with
  | E : workers ?p !! ?w = Some ?x
    |- context [<[?w := ?y]> (workers ?p)] =>
      let Hi := fresh "Hi" in
      pose proof (tally_insert f (workers p) w x y E) as Hi; simpl in Hi
  end.

Lemma step_poolOk e p p' : poolOk p -> step e p = Some p' -> poolOk p'.
Proof.
  intros Hp Hs.
  destruct e; simpl in Hs;
    try (moves Hs; enabled Hs; unfold poolOk in *; simpl;
         try lookup_insert alive; rewrite ?length_insert;
         repeat split; lia).
  destruct (running (monitor p)); [| discriminate].
  injection Hs as <-. apply monitorTick_poolOk. exact Hp.
Qed.

Lemma run_poolOk es : forall p p',
  poolOk p -> run es p = Some p' -> poolOk p'.
Proof.
  induction es as [| e es IH]; intros p p' Hp Hr; simpl in Hr.
  - injection Hr as <-. exact Hp.
  - destruct (step e p) as [q |] eqn:Hs; [| discriminate].
    eapply IH; [| exact Hr]. eapply step_poolOk; eassumption.
Qed.

Lemma newParallelManager_poolOk available :
  poolOk (newParallelManager available).
Proof.
  unfold newParallelManager, monitorProgress.
  match goal with
  | |- poolOk (setMonitor _ (addWorkers _ ?z)) =>
      assert (Hz : poolOk z) by (unfold poolOk; simpl; lia);
      pose proof (addWorkers_poolOk NumCPU z Hz) as Hg
  end.
  exact Hg.
Qed.

(** In every state of a run [workersNum] is the number of worker goroutines
    that were started, there are at most 128 of them, and the wait group
    counts exactly those that have not returned. *)
Theorem pool_counters_agree :
  forall p,
    reachable p ->
    workersNum p = Z.of_nat (length (workers p))
    /\ wg p = Z.of_nat (tally alive (workers p))
    /\ (length (workers p) <= 128)%nat.
Proof.
  intros p (available & es & Hr).
  exact (run_poolOk es _ p (newParallelManager_poolOk available) Hr).
Qed.

(** Preservation of [closedOk]: nothing is sent on a closed queue. *)
Lemma step_closedOk e p p' : closedOk p -> step e p = Some p' -> closedOk p'.
Proof.
  unfold closedOk. intros Hc Hs.
  destruct e; simpl in Hs; try (moves Hs); enabled Hs; simpl in *;
    try exact Hc.
  - intros Hcl. congruence.
  - intros Hcl. specialize (Hc Hcl). rewrite Hc in *. discriminate.
  - destruct (monitorTick_frame p) as (Hq & Hcl & _).
    rewrite Hq, Hcl. exact Hc.
  - intros _. assumption.
Qed.

Lemma run_closedOk es : forall p p',
  closedOk p -> run es p = Some p' -> closedOk p'.
Proof.
  induction es as [| e es IH]; intros p p' Hp Hr; simpl in Hr.
  - injection Hr as <-. exact Hp.
  - destruct (step e p) as [q |] eqn:Hs; [| discriminate].
    eapply IH; [| exact Hr]. eapply step_closedOk; eassumption.
Qed.

Lemma newParallelManager_channels available :
  sameChannels
    {| sentBytes := 0; wg := 0;
       barrierSync := {| writer := false; readers := O |};
       workersNum := 0; queueCh := []; queueClosed := false;
       resultCh := []; stopMonitorCh := false;
       maxMem := match available with Some a => memBudget a | None => 0 end;
       workers := [];
       monitor := {| running := false; prevSentBytes := 0;
                     maxBandwidth := 0; retry := 0 |} |}
    (newParallelManager available).
Proof.
  unfold newParallelManager, monitorProgress.
  match goal with
  | |- sameChannels ?z (setMonitor _ (addWorkers ?n ?z)) =>
      destruct (addWorkers_frame n z) as [Hf _]
  end.
  unfold sameChannels in *. simpl. exact Hf.
Qed.

(** Conservation of tasks along one move. *)
Lemma addWorker_backlog p : backlog (addWorker p) = backlog p.
Proof.
  unfold backlog, addWorker.
  destruct (maxParallelWorkers <=? workersNum p); [reflexivity |].
  simpl. rewrite tally_snoc. simpl. lia.
Qed.

Lemma addWorkers_backlog n p : backlog (addWorkers n p) = backlog p.
Proof.
  unfold addWorkers. induction (Z.to_nat n) as [| k IH]; [reflexivity |].
  rewrite Nat.iter_succ, addWorker_backlog. exact IH.
Qed.

Lemma monitorTick_backlog p : backlog (monitorTick p) = backlog p.
Proof.
  unfold monitorTick.
  destruct (negb (running (monitor p))); [reflexivity |].
  destruct (_ <=? _); [destruct (_ <? _) |];
    try reflexivity; rewrite addWorkers_backlog; reflexivity.
Qed.

Lemma step_conserves e p p' :
  step e p = Some p' ->
  (length (resultCh p') + backlog p'
   = length (resultCh p) + backlog p + queued [e])%nat.
Proof.
  intros Hs. unfold backlog.
  destruct e; simpl in Hs;
    try (moves Hs; enabled Hs; simpl;
         try lookup_insert owesResult;
         rewrite ?List.length_app; simpl; lia).
  - unfold workerReceive in Hs.
    destruct (workers p !! w) as [[] |] eqn:Hw; try discriminate.
    destruct (queueCh p !! k) as [t |] eqn:Hk; [| discriminate].
    injection Hs as <-. simpl.
    pose proof (length_delete_lookup _ k t Hk).
    pose proof (tally_insert owesResult _ w _ (Running t) Hw) as Hi.
    simpl in Hi. lia.
  - destruct (running (monitor p)); [| discriminate].
    injection Hs as <-.
    destruct (monitorTick_frame p) as (Hq & _ & Hres & _).
    pose proof (monitorTick_backlog p) as Hb. unfold backlog in Hb.
    rewrite Hres. simpl. lia.
  - moves Hs; enabled Hs; simpl.
    match goal with E : queueCh p = [] |- _ => rewrite E end.
    simpl. lia.
Qed.

Lemma queued_app es1 es2 : queued (es1 ++ es2) = (queued es1 + queued es2)%nat.
Proof.
  induction es1 as [| e es1 IH]; simpl; [reflexivity |].
  destruct e; simpl; rewrite IH; reflexivity.
Qed.

Lemma run_conserves es : forall p p',
  run es p = Some p' ->
  (length (resultCh p') + backlog p'
   = length (resultCh p) + backlog p + queued es)%nat.
Proof.
  induction es as [| e es IH]; intros p p' Hr; simpl in Hr.
  - injection Hr as <-. simpl. lia.
  - destruct (step e p) as [q |] eqn:Hs; [| discriminate].
    pose proof (step_conserves e p q Hs) as H1.
    pose proof (IH q p' Hr) as H2.
    change (e :: es) with ([e] ++ es). rewrite queued_app. lia.
Qed.

Lemma newParallelManager_backlog available :
  length (resultCh (newParallelManager available)) = 0%nat
  /\ backlog (newParallelManager available) = 0%nat.
Proof.
  destruct (newParallelManager_channels available) as (_ & _ & Hres & _).
  rewrite Hres. split; [reflexivity |].
  unfold newParallelManager, monitorProgress.
  change (backlog (setMonitor ?m ?q)) with (backlog q).
  rewrite addWorkers_backlog. reflexivity.
Qed.


Lemma all_exited (ws : list worker) :
  (forall i w, ws !! i = Some w -> w = Exited) ->
  tally owesResult ws = 0%nat /\ forall b, totalHeld b ws = 0%nat.
Proof.
  induction ws as [| x ws IH]; intros Hall; [split; reflexivity |].
  pose proof (Hall 0%nat x eq_refl) as ->.
  destruct (IH (fun i w Hi => Hall (S i) w Hi)) as [Ho Hh].
  simpl. split; [exact Ho | intros b; apply Hh].
Qed.



(** [stopAndWait] gets past [p.wg.Wait()] only when every worker has
    returned; by then nothing is on offer, the gate is free, and every task
    that was queued in the run has its result on the result channel. *)
Theorem shutdown_waits_for_every_task :
  forall available es p p',
    run es (newParallelManager available) = Some p ->
    stopMonitor p = Some p' ->
    (forall i w, workers p !! i = Some w -> w = Exited)
    /\ queueCh p = []
    /\ gateFree p
    /\ length (resultCh p) = queued es.
Proof.
  intros available es p p' Hr Hstop.
  unfold stopMonitor in Hstop.
  destruct (queueClosed p) eqn:Hcl; [| discriminate].
  destruct (Z.eqb_spec (wg p) 0) as [Hwg | _]; [| discriminate].
  clear Hstop.
  pose proof (run_poolOk es _ p (newParallelManager_poolOk available) Hr)
    as (_ & Hw & _).
  assert (Hc0 : closedOk (newParallelManager available)).
  { unfold closedOk.
    destruct (newParallelManager_channels available) as (_ & Hq & _).
    rewrite Hq. discriminate. }
  pose proof (run_closedOk es _ p Hc0 Hr Hcl) as Hq.
  assert (Hex : forall i w, workers p !! i = Some w -> w = Exited).
  { intros i w Hi.
    assert (Ha : alive w = false)
      by (apply (tally_none alive (workers p) ltac:(lia) i w Hi)).
    destruct w; try discriminate. reflexivity. }
  destruct (all_exited _ Hex) as [Ho Hh].
  pose proof (run_conserves es _ p Hr) as Hcons.
  destruct (newParallelManager_backlog available) as [Hres0 Hb0].
  rewrite Hres0, Hb0 in Hcons. unfold backlog in Hcons.
  assert (Hreach : reachable p) by (exists available, es; exact Hr).
  destruct (reachable_gateOk p Hreach) as (Hsh & Hexc & _).
  unfold holds in Hsh, Hexc. rewrite Hq, !Hh in Hsh, Hexc. simpl in Hsh, Hexc.
  split; [exact Hex |]. split; [exact Hq |].
  split.
  - unfold gateFree. split; [| lia].
    destruct (writer (barrierSync p)); [discriminate | reflexivity].
  - rewrite Hq, Ho in Hcons. simpl in Hcons. lia.
Qed.

(** A submission with the barrier flag keeps its class whatever the memory
    situation.  It gets through only when the pool is idle: nothing on
    offer, no worker holding a task, the gate free; it then holds the gate
    exclusively and is the only task on offer.  An open queue and a free
    gate are also enough for it to get through. *)
Theorem barrier_submission_waits_for_idle_pool :
  (forall p alloc f size,
      queueTaskWithBarrier p alloc f size
      = hold p {| fn := f; barrier := true; uploadSize := size |})
  /\ (forall p alloc f size p',
        reachable p ->
        queueTaskWithBarrier p alloc f size = Some p' ->
        queueCh p = []
        /\ (forall i w, workers p !! i = Some w -> held w = [])
        /\ gateFree p
        /\ queueCh p' = [{| fn := f; barrier := true; uploadSize := size |}]
        /\ barrierSync p' = {| writer := true; readers := 0 |}
        /\ workers p' = workers p)
  /\ (forall p alloc f size,
        gateFree p -> queueClosed p = false ->
        queueTaskWithBarrier p alloc f size <> None).
Proof.
  assert (Hsame : forall p alloc f size,
    queueTaskWithBarrier p alloc f size
    = hold p {| fn := f; barrier := true; uploadSize := size |}).
  { intros p alloc f size. unfold queueTaskWithBarrier, doQueueTask.
    destruct (enoughMemForUpload p alloc _) as [enough | msg] eqn:He.
    - destruct enough; reflexivity.
    - exfalso. unfold enoughMemForUpload in He.
      pose proof (uint64_nonneg size) as Hn. simpl in He.
      destruct (Z.ltb_spec (Int.uint64 size) 0); [lia |].
      destruct ((Int.uint64 size =? 0) || (maxMem p =? 0)); discriminate. }
  split; [exact Hsame |]. split.
  - intros p alloc f size p' Hreach Hq. rewrite Hsame in Hq.
    destruct (reachable_gateOk p Hreach) as (Hsh & Hex & _).
    unfold holds in Hsh, Hex.
    unfold hold in Hq. simpl in Hq. unfold Lock in Hq.
    destruct (writer (barrierSync p)) eqn:Hw; [discriminate |].
    destruct (readers (barrierSync p)) eqn:Hrd; [| discriminate].
    destruct (queueClosed p); [discriminate |].
    injection Hq as <-.
    assert (Hnil : queueCh p = []) by (apply total_all_zero; lia).
    split; [exact Hnil |]. split; [| split; [| split; [| split]]].
    + intros i w Hi.
      pose proof (totalHeld_lookup true _ i w Hi).
      pose proof (totalHeld_lookup false _ i w Hi).
      apply total_all_zero; lia.
    + unfold gateFree. split; assumption.
    + simpl. rewrite Hnil. reflexivity.
    + reflexivity.
    + reflexivity.
  - intros p alloc f size [Hw Hrd] Hcl. rewrite Hsame.
    unfold hold. simpl. unfold Lock. rewrite Hw, Hrd, Hcl. discriminate.
Qed.


(** Once the queue is closed it stays closed and no submission gets
    through any more. *)
Theorem nothing_is_queued_after_close :
  forall es p p',
    queueClosed p = true ->
    run es p = Some p' ->
    queueClosed p' = true
    /\ queued es = 0%nat
    /\ forall alloc t, doQueueTask p' alloc t = None.
Proof.
  assert (Hblocked : forall p alloc t,
    queueClosed p = true -> doQueueTask p alloc t = None).
  { intros p alloc t Hcl. unfold doQueueTask.
    destruct (enoughMemForUpload p alloc _); [| reflexivity].
    unfold hold. rewrite Hcl.
    destruct ((if barrier _ then Lock else RLock) (barrierSync p));
      reflexivity. }
  induction es as [| e es IH]; intros p p' Hcl Hr; simpl in Hr.
  - injection Hr as <-. repeat split; [exact Hcl |].
    intros alloc t. apply Hblocked. exact Hcl.
  - destruct (step e p) as [q |] eqn:Hs; [| discriminate].
    assert (Hq : queueClosed q = true /\ queued [e] = 0%nat).
    { destruct e; simpl in Hs;
        try (rewrite Hblocked in Hs by exact Hcl; discriminate);
        try (moves Hs); enabled Hs; simpl; try (split; [exact Hcl | reflexivity]);
        try congruence.
      destruct (monitorTick_frame p) as (_ & Hc & _).
      rewrite Hc. split; [exact Hcl | reflexivity]. }
    destruct Hq as [Hq He].
    destruct (IH q p' Hq Hr) as (H1 & H2 & H3).
    split; [exact H1 |]. split; [| exact H3].
    change (e :: es) with ([e] ++ es). rewrite queued_app. lia.
Qed.

(** *** Bytes sent *)

Lemma int64_small a : Int.is_int64 a -> Int.int64 a = a.
Proof.
  unfold Int.is_int64, Int.int64. intros Ha.
  rewrite Z.mod_small by lia. lia.
Qed.

Lemma int64_range a : Int.is_int64 (Int.int64 a).
Proof.
  unfold Int.is_int64, Int.int64.
  pose proof (Z.mod_pos_bound (a + 2 ^ 63) (2 ^ 64) ltac:(lia)). lia.
Qed.

Lemma int64_add_l a b : Int.int64 (Int.int64 a + b) = Int.int64 (a + b).
Proof.
  unfold Int.int64. f_equal.
  replace ((a + 2 ^ 63) mod 2 ^ 64 - 2 ^ 63 + b + 2 ^ 63)
    with ((a + 2 ^ 63) mod 2 ^ 64 + b) by lia.
  rewrite Zplus_mod_idemp_l. f_equal. lia.
Qed.

Lemma step_sentBytes e p p' :
  step e p = Some p' ->
  sentBytes p' = match e with
                 | Sent len => Int.int64 (sentBytes p + len)
                 | _ => sentBytes p
                 end.
Proof.
  intros Hs.
  destruct e; simpl in Hs; try (moves Hs); enabled Hs; try reflexivity.
  destruct (monitorTick_frame p) as (_ & _ & _ & _ & Hb & _). exact Hb.
Qed.

Lemma run_sentBytes es : forall p p',
  Int.is_int64 (sentBytes p) ->
  run es p = Some p' ->
  sentBytes p' = Int.int64 (sentBytes p + sent es).
Proof.
  induction es as [| e es IH]; intros p p' Hp Hr; simpl in Hr.
  - injection Hr as <-. simpl. rewrite Z.add_0_r, int64_small; auto.
  - destruct (step e p) as [q |] eqn:Hs; [| discriminate].
    pose proof (step_sentBytes e p q Hs) as Hq.
    assert (Hrange : Int.is_int64 (sentBytes q)).
    { rewrite Hq. destruct e; try exact Hp. apply int64_range. }
    rewrite (IH q p' Hrange Hr), Hq.
    destruct e; try reflexivity.
    simpl. rewrite int64_add_l. f_equal. lia.
Qed.

(** The byte counter is the sum of the lengths passed to [Read], wrapped
    to 64 bits; no other move of the run touches it. *)
Theorem sent_bytes_are_the_sum_of_reads :
  forall available es p,
    run es (newParallelManager available) = Some p ->
    sentBytes p = Int.int64 (sent es).
Proof.
  intros available es p Hr.
  destruct (newParallelManager_channels available)
    as (_ & _ & _ & _ & Hb & _).
  assert (Hb0 : sentBytes (newParallelManager available) = 0) by exact Hb.
  assert (Hrange : Int.is_int64 (sentBytes (newParallelManager available))).
  { rewrite Hb0. unfold Int.is_int64. lia. }
  rewrite (run_sentBytes es _ p Hrange Hr), Hb0. reflexivity.
Qed.

(** *** The monitor *)

Lemma step_monitorOk e p p' :
  monitorOk p -> step e p = Some p' ->
  monitorOk p'
  /\ maxBandwidth (monitor p) <= maxBandwidth (monitor p').
Proof.
  unfold monitorOk. intros (Hr & Hrun & Hoff & Hmax) Hs.
  destruct e; simpl in Hs; try (moves Hs); enabled Hs; simpl;
    try (split; [repeat split; solve [assumption | lia | tauto] | lia]).
  - (* Tick *)
    rename E into Hon. specialize (Hrun eq_refl).
    destruct (monitorTick_frame p) as (_ & _ & _ & _ & _ & Hstop & _).
    rewrite Hstop. unfold monitorTick. rewrite Hon. simpl.
    destruct (Z.leb_spec
                (Int.int64 (sentBytes p - prevSentBytes (monitor p)))
                (maxBandwidth (monitor p))) as [Hle | Hgt].
    + destruct (Z.ltb_spec 2 (retry (monitor p) + 1)) as [Hmany | Hfew].
      * simpl. repeat split; try lia; try discriminate.
      * match goal with
        | |- context [addWorkers ?n ?q] =>
            destruct (addWorkers_frame n q) as [_ Hm]; rewrite Hm
        end.
        simpl. repeat split; try lia; try discriminate.
    + match goal with
      | |- context [addWorkers ?n ?q] =>
          destruct (addWorkers_frame n q) as [_ Hm]; rewrite Hm
      end.
      simpl. repeat split; try lia; try discriminate.
  - (* MonitorQuit *)
    apply andb_true_iff in E as [Hstop _].
    split; [| lia]. repeat split; try lia; try discriminate.
    intros _. right. exact Hstop.
Qed.

Lemma run_monitorOk es : forall p p',
  monitorOk p -> run es p = Some p' ->
  monitorOk p' /\ maxBandwidth (monitor p) <= maxBandwidth (monitor p').
Proof.
  induction es as [| e es IH]; intros p p' Hp Hr; simpl in Hr.
  - injection Hr as <-. split; [exact Hp | lia].
  - destruct (step e p) as [q |] eqn:Hs; [| discriminate].
    destruct (step_monitorOk e p q Hp Hs) as [Hq Hle].
    destruct (IH q p' Hq Hr) as [Hp' Hle'].
    split; [exact Hp' | lia].
Qed.

Lemma newParallelManager_monitor available :
  monitor (newParallelManager available)
  = {| running := true; prevSentBytes := 0; maxBandwidth := 0; retry := 0 |}.
Proof. reflexivity. Qed.

(** In every state of a run the stall counter is between 0 and 3, at most 2
    while the monitor runs, and a monitor that has returned either counted
    three stalls or was told to stop; the best bandwidth is never negative
    and never decreases. *)
Theorem monitor_counters_are_bounded :
  forall available es es' p p',
    run es (newParallelManager available) = Some p ->
    run es' p = Some p' ->
    0 <= retry (monitor p) <= 3
    /\ (running (monitor p) = true -> retry (monitor p) <= 2)
    /\ (running (monitor p) = false ->
        retry (monitor p) = 3 \/ stopMonitorCh p = true)
    /\ 0 <= maxBandwidth (monitor p) <= maxBandwidth (monitor p').
Proof.
  intros available es es' p p' Hr Hr'.
  assert (H0 : monitorOk (newParallelManager available)).
  { unfold monitorOk. rewrite newParallelManager_monitor. simpl.
    repeat split; try lia; try discriminate. }
  destruct (run_monitorOk es _ p H0 Hr) as [Hp _].
  destruct (run_monitorOk es' p p' Hp Hr') as [_ Hle].
  destruct Hp as (Ha & Hb & Hc & Hd).
  repeat split; try tauto; lia.
Qed.

(** A tick with no byte sent since the previous sample is a stall. *)
Lemma tick_without_bytes p b r :
  monitor p = {| running := true; prevSentBytes := sentBytes p;
                 maxBandwidth := b; retry := r |} ->
  0 <= b ->
  monitorTick p
  = if 2 <? r + 1 then
      setMonitor {| running := false; prevSentBytes := sentBytes p;
                    maxBandwidth := b; retry := r + 1 |} p
    else
      addWorkers defaultWorkerFactor
        (setMonitor {| running := true; prevSentBytes := sentBytes p;
                       maxBandwidth := b; retry := r + 1 |} p).
Proof.
  intros Hm Hb. unfold monitorTick. rewrite Hm. simpl.
  rewrite Z.sub_diag. change (Int.int64 0) with 0.
  destruct (Z.leb_spec 0 b); [reflexivity | lia].
Qed.

Lemma batch_after_stall p m :
  countOk p -> sentBytes p = prevSentBytes m ->
  let q := addWorkers defaultWorkerFactor (setMonitor m p) in
  monitor q = m /\ sentBytes q = prevSentBytes m /\ countOk q
  /\ workersNum q
     = Z.min maxParallelWorkers (workersNum p + Z.max 0 defaultWorkerFactor).
Proof.
  intros Hc Hs q.
  destruct (addWorkers_frame defaultWorkerFactor (setMonitor m p))
    as [(_ & _ & _ & _ & Hb & _) Hm].
  destruct (addWorkers_count defaultWorkerFactor (setMonitor m p) Hc)
    as [Hn Hc'].
  split; [exact Hm |].
  split; [unfold q; rewrite Hb; exact Hs |].
  split; [exact Hc' | exact Hn].
Qed.

(** A pipeline that never sends a byte still grows: on a fresh manager the
    first two ticks are stalls that each add a batch of workers, and the
    third tick makes the monitor return for good.  The pool ends with
    [NumCPU] plus two batches of workers, capped at 128. *)
Theorem idle_monitor_adds_two_batches_then_stops :
  forall available,
    exists p,
      run [Tick; Tick; Tick] (newParallelManager available) = Some p
      /\ running (monitor p) = false
      /\ retry (monitor p) = 3
      /\ workersNum p
         = Z.min maxParallelWorkers
             (Z.max 0 NumCPU + 2 * Z.max 0 defaultWorkerFactor)
      /\ step Tick p = None.
Proof.
  intros available.
  set (p0 := newParallelManager available).
  destruct (newParallelManager_count available) as [Hc0 Hn0].
  destruct (newParallelManager_channels available)
    as (_ & _ & _ & _ & Hb & _).
  assert (Hs0 : sentBytes p0 = 0) by exact Hb.
  assert (Hm0 : monitor p0
                = {| running := true; prevSentBytes := sentBytes p0;
                     maxBandwidth := 0; retry := 0 |}).
  { rewrite Hs0. reflexivity. }
  set (m1 := {| running := true; prevSentBytes := 0;
                maxBandwidth := 0; retry := 1 |}).
  assert (Ht1 : monitorTick p0 = addWorkers defaultWorkerFactor (setMonitor m1 p0)).
  { rewrite (tick_without_bytes p0 0 0 Hm0) by lia.
    rewrite Hs0. reflexivity. }
  destruct (batch_after_stall p0 m1 Hc0 Hs0) as (Hm1 & Hs1 & Hc1 & Hn1).
  rewrite <- Ht1 in Hm1, Hs1, Hc1, Hn1.
  set (p1 := monitorTick p0) in *.
  assert (Hm1' : monitor p1
                 = {| running := true; prevSentBytes := sentBytes p1;
                      maxBandwidth := 0; retry := 1 |}).
  { rewrite Hs1. exact Hm1. }
  set (m2 := {| running := true; prevSentBytes := 0;
                maxBandwidth := 0; retry := 2 |}).
  assert (Ht2 : monitorTick p1 = addWorkers defaultWorkerFactor (setMonitor m2 p1)).
  { rewrite (tick_without_bytes p1 0 1 Hm1') by lia.
    rewrite Hs1. reflexivity. }
  destruct (batch_after_stall p1 m2 Hc1 Hs1) as (Hm2 & Hs2 & Hc2 & Hn2).
  rewrite <- Ht2 in Hm2, Hs2, Hc2, Hn2.
  set (p2 := monitorTick p1) in *.
  assert (Hm2' : monitor p2
                 = {| running := true; prevSentBytes := sentBytes p2;
                      maxBandwidth := 0; retry := 2 |}).
  { rewrite Hs2. exact Hm2. }
  assert (Ht3 : monitorTick p2
                = setMonitor {| running := false; prevSentBytes := 0;
                                maxBandwidth := 0; retry := 3 |} p2).
  { rewrite (tick_without_bytes p2 0 2 Hm2') by lia.
    rewrite Hs2. reflexivity. }
  exists (monitorTick p2).
  assert (Hon0 : running (monitor p0) = true) by (rewrite Hm0; reflexivity).
  assert (Hon1 : running (monitor p1) = true) by (rewrite Hm1; reflexivity).
  assert (Hon2 : running (monitor p2) = true) by (rewrite Hm2; reflexivity).
  split.
  { cbn [run step]. fold p0. rewrite Hon0. fold p1. rewrite Hon1. fold p2.
    rewrite Hon2. reflexivity. }
  rewrite Ht3.
  split; [reflexivity |]. split; [reflexivity |]. split; [| reflexivity].
  change (workersNum (setMonitor _ p2)) with (workersNum p2).
  change (workersNum (newParallelManager available))
    with (workersNum p0) in Hn0.
  rewrite Hn2, Hn1, Hn0. unfold maxParallelWorkers. lia.
Qed.

(** *** Where results come from *)

Lemma In_insert_inv {A} (l : list A) : forall i y x,
  In x (<[i := y]> l) -> x = y \/ In x l.
Proof.
  induction l as [| a l IH]; intros i y x Hin; [destruct Hin |].
  destruct i as [| i]; simpl in Hin.
  - destruct Hin as [<- | Hin]; [left; reflexivity | right; right; exact Hin].
  - destruct Hin as [<- | Hin]; [right; left; reflexivity |].
    destruct (IH i y x Hin) as [-> | Hl]; [left; reflexivity |].
    right; right; exact Hl.
Qed.

Lemma lookup_In {A} (l : list A) : forall i x, l !! i = Some x -> In x l.
Proof.
  induction l as [| a l IH]; intros i x Hi; [discriminate |].
  destruct i as [| i]; simpl in Hi.
  - injection Hi as ->. left; reflexivity.
  - right. exact (IH i x Hi).
Qed.

Lemma In_delete_inv {A} (l : list A) : forall k x,
  In x (delete k l) -> In x l.
Proof.
  induction l as [| a l IH]; intros k x Hin; [destruct k; destruct Hin |].
  destruct k as [| k]; simpl in Hin.
  - right; exact Hin.
  - destruct Hin as [<- | Hin]; [left; reflexivity | right; exact (IH k x Hin)].
Qed.

Lemma addWorker_workers p w :
  In w (workers (addWorker p)) -> w = Waiting \/ In w (workers p).
Proof.
  unfold addWorker. destruct (maxParallelWorkers <=? workersNum p);
    [right; assumption |].
  simpl. intros Hin. apply in_app_or in Hin as [Hin | [<- | []]]; auto.
Qed.

Lemma addWorkers_workers n p w :
  In w (workers (addWorkers n p)) -> w = Waiting \/ In w (workers p).
Proof.
  unfold addWorkers. induction (Z.to_nat n) as [| k IH]; [right; assumption |].
  rewrite Nat.iter_succ. intros Hin.
  apply addWorker_workers in Hin as [-> | Hin]; [left; reflexivity |].
  exact (IH Hin).
Qed.

Lemma monitorTick_workers p w :
  In w (workers (monitorTick p)) -> w = Waiting \/ In w (workers p).
Proof.
  unfold monitorTick.
  destruct (negb (running (monitor p))); [right; assumption |].
  destruct (_ <=? _); [destruct (_ <? _) |];
    try (right; assumption);
    intros Hin; apply addWorkers_workers in Hin; exact Hin.
Qed.

Lemma fromTasks_more S S' t : fromTasks S t -> fromTasks (S ++ S') t.
Proof.
  intros (t0 & Hin & Hf). exists t0. split; [| exact Hf].
  apply in_or_app. left. exact Hin.
Qed.

Lemma provenance_more S S' p : provenance S p -> provenance (S ++ S') p.
Proof.
  intros (Hq & Hw & Hr & Hres). repeat split.
  - intros t Ht. apply fromTasks_more. auto.
  - intros w t Hi Ht. apply fromTasks_more. eauto.
  - exact Hr.
  - intros r Hin. destruct (Hres r Hin) as (t0 & Hin0 & Hf).
    exists t0. split; [apply in_or_app; left; exact Hin0 | exact Hf].
Qed.

Lemma step_provenance S e p p' :
  provenance S p -> step e p = Some p' ->
  provenance (S ++ submitted [e]) p'.
Proof.
  intros Hp Hs.
  pose proof (provenance_more S (submitted [e]) p Hp) as Hp'.
  destruct Hp as (Hq & Hw & Hr & Hres).
  destruct e; simpl in Hs.
  - (* Queue *)
    destruct Hp' as (Hq' & Hw' & Hr' & Hres').
    unfold doQueueTask in Hs.
    destruct (enoughMemForUpload p alloc _) as [enough |]; [| discriminate].
    unfold hold in Hs.
    destruct ((if barrier _ then Lock else RLock) (barrierSync p));
      [| discriminate].
    destruct (queueClosed p); [discriminate |].
    injection Hs as <-. repeat split; simpl; try assumption.
    intros x Hin. apply in_app_or in Hin as [Hin | [<- | []]].
    + apply Hq'. exact Hin.
    + exists t. split; [apply in_or_app; right; left; reflexivity |].
      destruct enough; reflexivity.
  - (* Receive *)
    simpl in Hp'. rewrite List.app_nil_r in *. clear Hp'.
    unfold workerReceive in Hs.
    destruct (workers p !! w) as [[] |] eqn:Ew; try discriminate.
    destruct (queueCh p !! k) as [t |] eqn:Ek; [| discriminate].
    injection Hs as <-. repeat split; simpl.
    + intros x Hin. apply Hq. eapply In_delete_inv. exact Hin.
    + intros w0 x Hin Hx.
      apply In_insert_inv in Hin as [-> | Hin]; [| eauto].
      destruct Hx as [<- | []]. apply Hq. eapply lookup_In. exact Ek.
    + intros t0 r Hin.
      apply In_insert_inv in Hin as [Heq | Hin]; [discriminate | eauto].
    + exact Hres.
  - (* Return *)
    simpl in Hp'. rewrite List.app_nil_r in *. clear Hp'.
    unfold workerReturn in Hs.
    destruct (workers p !! w) as [[] |] eqn:Ew; try discriminate.
    injection Hs as <-. repeat split; simpl; try assumption.
    + intros w0 x Hin Hx.
      apply In_insert_inv in Hin as [-> | Hin]; [| eauto].
      apply (Hw (Running t) x); [eapply lookup_In; exact Ew | exact Hx].
    + intros t0 r Hin.
      apply In_insert_inv in Hin as [Heq | Hin]; [| eauto].
      injection Heq as -> ->. reflexivity.
  - (* Report *)
    simpl in Hp'. rewrite List.app_nil_r in *. clear Hp'.
    unfold workerReport in Hs.
    destruct (workers p !! w) as [[] |] eqn:Ew; try discriminate.
    injection Hs as <-. repeat split; simpl; try assumption.
    + intros w0 x Hin Hx.
      apply In_insert_inv in Hin as [-> | Hin]; [| eauto].
      apply (Hw (Reporting t r) x); [eapply lookup_In; exact Ew | exact Hx].
    + intros t0 r0 Hin.
      apply In_insert_inv in Hin as [Heq | Hin]; [discriminate | eauto].
    + intros r0 Hin. apply in_app_or in Hin as [Hin | [<- | []]]; [eauto |].
      pose proof (lookup_In _ _ _ Ew) as Hin.
      rewrite (Hr t r Hin).
      destruct (Hw (Reporting t r) t Hin (or_introl eq_refl))
        as (t0 & Hin0 & Hf).
      exists t0. split; [exact Hin0 | rewrite Hf; reflexivity].
  - (* Release *)
    simpl in Hp'. rewrite List.app_nil_r in *. clear Hp'.
    unfold workerRelease in Hs.
    destruct (workers p !! w) as [[] |] eqn:Ew; try discriminate.
    destruct ((if barrier t then Unlock else RUnlock) (barrierSync p));
      [| discriminate].
    injection Hs as <-. repeat split; simpl; try assumption.
    + intros w0 x Hin Hx.
      apply In_insert_inv in Hin as [-> | Hin]; [destruct Hx | eauto].
    + intros t0 r0 Hin.
      apply In_insert_inv in Hin as [Heq | Hin]; [discriminate | eauto].
  - (* Exit *)
    simpl in Hp'. rewrite List.app_nil_r in *. clear Hp'.
    unfold workerExit in Hs.
    destruct (workers p !! w) as [[] |] eqn:Ew; try discriminate.
    destruct (queueClosed p); [| discriminate].
    injection Hs as <-. repeat split; simpl; try assumption.
    + intros w0 x Hin Hx.
      apply In_insert_inv in Hin as [-> | Hin]; [destruct Hx | eauto].
    + intros t0 r0 Hin.
      apply In_insert_inv in Hin as [Heq | Hin]; [discriminate | eauto].
  - injection Hs as <-. exact Hp'.
  - (* Tick *)
    simpl in Hp'. rewrite List.app_nil_r in *. clear Hp'.
    destruct (running (monitor p)); [| discriminate].
    injection Hs as <-.
    destruct (monitorTick_frame p) as (Eq & _ & Eres & _).
    repeat split; rewrite ?Eq, ?Eres; try assumption.
    + intros w0 x Hin Hx.
      apply monitorTick_workers in Hin as [-> | Hin]; [destruct Hx | eauto].
    + intros t0 r0 Hin.
      apply monitorTick_workers in Hin as [Heq | Hin]; [discriminate | eauto].
  - unfold monitorQuit in Hs.
    destruct (stopMonitorCh p && running (monitor p)); [| discriminate].
    injection Hs as <-. exact Hp'.
  - unfold closeQueue in Hs.
    destruct (queueClosed p); [discriminate |].
    destruct (queueCh p) eqn:Eq; [| discriminate].
    injection Hs as <-. exact Hp'.
  - unfold stopMonitor in Hs.
    destruct (queueClosed p && (wg p =? 0) && negb (stopMonitorCh p));
      [| discriminate].
    injection Hs as <-. exact Hp'.
Qed.

Lemma submitted_app es1 es2 :
  submitted (es1 ++ es2) = submitted es1 ++ submitted es2.
Proof.
  induction es1 as [| e es1 IH]; simpl; [reflexivity |].
  destruct e; simpl; rewrite IH; reflexivity.
Qed.

Lemma run_provenance es : forall S p p',
  provenance S p -> run es p = Some p' -> provenance (S ++ submitted es) p'.
Proof.
  induction es as [| e es IH]; intros S p p' Hp Hr; simpl in Hr.
  - injection Hr as <-. simpl. rewrite List.app_nil_r. exact Hp.
  - destruct (step e p) as [q |] eqn:Hs; [| discriminate].
    pose proof (step_provenance S e p q Hp Hs) as Hq.
    pose proof (IH _ q p' Hq Hr) as Hp'.
    change (e :: es) with ([e] ++ es).
    rewrite submitted_app, List.app_assoc. exact Hp'.
Qed.

Lemma newParallelManager_workers available w :
  In w (workers (newParallelManager available)) -> w = Waiting.
Proof.
  unfold newParallelManager, monitorProgress. simpl. intros Hin.
  apply addWorkers_workers in Hin as [-> | []]. reflexivity.
Qed.

(** Every result on the result channel is what the function of a task
    submitted in the run returned; and every task on offer or with a worker
    carries the function of a submitted task. *)
Theorem results_come_from_submitted_tasks :
  forall available es p,
    run es (newParallelManager available) = Some p ->
    (forall r, In r (resultCh p) ->
       exists t, In t (submitted es) /\ r = fn t tt)
    /\ (forall t, In t (queueCh p) ->
          exists t0, In t0 (submitted es) /\ fn t = fn t0)
    /\ (forall i w t, workers p !! i = Some w -> In t (held w) ->
          exists t0, In t0 (submitted es) /\ fn t = fn t0).
Proof.
  intros available es p Hr.
  assert (H0 : provenance [] (newParallelManager available)).
  { destruct (newParallelManager_channels available)
      as (Hq & _ & Hres & _).
    unfold provenance. rewrite Hq, Hres. simpl.
    repeat split; try (intros; contradiction).
    - intros w t Hin Ht.
      rewrite (newParallelManager_workers available w Hin) in Ht.
      destruct Ht.
    - intros t r Hin.
      pose proof (newParallelManager_workers available _ Hin). discriminate. }
  destruct (run_provenance es [] _ p H0 Hr) as (Hq & Hw & _ & Hres).
  simpl in Hq, Hw, Hres.
  split; [exact Hres |]. split; [exact Hq |].
  intros i w t Hi Ht. apply (Hw w t); [eapply lookup_In; exact Hi | exact Ht].
Qed.

End Pool.

(** *** Concrete runs *)

Lemma pool_counters_agree_witness :
  Parallel.workersNum SampleHost.twoRunning
  = Z.of_nat (length (Parallel.workers SampleHost.twoRunning))
  /\ Parallel.wg SampleHost.twoRunning
     = Z.of_nat (Accounting.tally Accounting.alive
                   (Parallel.workers SampleHost.twoRunning))
  /\ (length (Parallel.workers SampleHost.twoRunning) <= 128)%nat.
Proof.
  apply (@pool_counters_agree SampleHost.host SampleHost.twoRunning).
  exists (Some (10 * 2 ^ 30)), SampleHost.twoShared.
  vm_compute. reflexivity.
Defined.


Lemma shutdown_waits_for_every_task_witness :
  (forall i w, Parallel.workers SampleHost.drained !! i = Some w ->
               w = Parallel.Exited)
  /\ Parallel.queueCh SampleHost.drained = []
  /\ Accounting.gateFree SampleHost.drained
  /\ length (Parallel.resultCh SampleHost.drained)
     = Accounting.queued SampleHost.fullRun.
Proof.
  apply (@shutdown_waits_for_every_task SampleHost.host
           (Some (10 * 2 ^ 30)) SampleHost.fullRun SampleHost.drained
           (Parallel.setStopMonitorCh true SampleHost.drained)).
  - vm_compute. reflexivity.
  - vm_compute. reflexivity.
Defined.

Lemma barrier_submission_waits_for_idle_pool_witness :
  Parallel.queueCh SampleHost.large = []
  /\ (forall i w, Parallel.workers SampleHost.large !! i = Some w ->
                  Parallel.held w = [])
  /\ Accounting.gateFree SampleHost.large.
Proof.
  assert (Hr : @Parallel.reachable SampleHost.host SampleHost.large).
  { exists (Some (10 * 2 ^ 30)), []. reflexivity. }
  destruct (proj1 (proj2 (@barrier_submission_waits_for_idle_pool
                            SampleHost.host))
              SampleHost.large 0 (fun _ => Mirror.noURLs) 10
              (SampleHost.after
                 [Parallel.Queue (SampleHost.job true 10) 0] SampleHost.large)
              Hr ltac:(vm_compute; reflexivity))
    as (Hq & Hw & Hg & _).
  exact (conj Hq (conj Hw Hg)).
Defined.


Lemma nothing_is_queued_after_close_witness :
  let closed := SampleHost.after [Parallel.CloseQueue] SampleHost.large in
  let es := [Parallel.Exit 0; Parallel.Exit 1] in
  Parallel.queueClosed (SampleHost.after es closed) = true
  /\ Accounting.queued es = 0%nat
  /\ forall alloc t,
       Parallel.doQueueTask (SampleHost.after es closed) alloc t = None.
Proof.
  intros closed es.
  apply (@nothing_is_queued_after_close SampleHost.host es closed).
  - vm_compute. reflexivity.
  - vm_compute. reflexivity.
Defined.

Lemma sent_bytes_are_the_sum_of_reads_witness :
  let es := [Parallel.Sent 100; Parallel.Tick; Parallel.Sent 50] in
  Parallel.sentBytes (SampleHost.after es SampleHost.large)
  = Int.int64 (Accounting.sent es).
Proof.
  intros es.
  apply (@sent_bytes_are_the_sum_of_reads SampleHost.host
           (Some (10 * 2 ^ 30)) es).
  vm_compute. reflexivity.
Defined.

Lemma monitor_counters_are_bounded_witness :
  let p := SampleHost.after [Parallel.Sent 100; Parallel.Tick] SampleHost.large in
  let p' := SampleHost.after [Parallel.Tick] p in
  0 <= Parallel.retry (Parallel.monitor p) <= 3
  /\ (Parallel.running (Parallel.monitor p) = true ->
      Parallel.retry (Parallel.monitor p) <= 2)
  /\ (Parallel.running (Parallel.monitor p) = false ->
      Parallel.retry (Parallel.monitor p) = 3
      \/ Parallel.stopMonitorCh p = true)
  /\ 0 <= Parallel.maxBandwidth (Parallel.monitor p)
     <= Parallel.maxBandwidth (Parallel.monitor p').
Proof.
  intros p p'.
  apply (@monitor_counters_are_bounded SampleHost.host
           (Some (10 * 2 ^ 30)) [Parallel.Sent 100; Parallel.Tick]
           [Parallel.Tick] p p').
  - vm_compute. reflexivity.
  - vm_compute. reflexivity.
Defined.

Lemma results_come_from_submitted_tasks_witness :
  (forall r, In r (Parallel.resultCh SampleHost.drained) ->
     exists t, In t (Accounting.submitted SampleHost.fullRun)
               /\ r = Parallel.fn t tt)
  /\ (forall t, In t (Parallel.queueCh SampleHost.drained) ->
        exists t0, In t0 (Accounting.submitted SampleHost.fullRun)
                   /\ Parallel.fn t = Parallel.fn t0)
  /\ (forall i w t,
        Parallel.workers SampleHost.drained !! i = Some w ->
        In t (Parallel.held w) ->
        exists t0, In t0 (Accounting.submitted SampleHost.fullRun)
                   /\ Parallel.fn t = Parallel.fn t0).
Proof.
  apply (@results_come_from_submitted_tasks SampleHost.host
           (Some (10 * 2 ^ 30)) SampleHost.fullRun SampleHost.drained).
  vm_compute. reflexivity.
Defined.

(** ** More on the Mirror Orchestrator *)

Section OrchestratorFlags.

Import Mirror Policy.

Context `{Env}.

Variables sourceAlias targetAlias sourceURL targetURL : string.

(** The flags matter only through what they allow.  Two settings that allow
    the same overwrites and the same removals, with the same exclude
    patterns, yield the same messages for every difference message; so a
    dry run reports exactly what a run with overwrite and remove set would
    do, and active-active stands for overwrite.  The same holds for the
    whole stream when the metadata flag agrees too. *)
Theorem flags_matter_only_through_what_they_allow :
  forall opts opts',
    mayOverwrite opts = mayOverwrite opts' ->
    mayRemove opts = mayRemove opts' ->
    excludeOptions opts = excludeOptions opts' ->
    (forall m,
        Current.deltaMessage sourceAlias targetAlias sourceURL targetURL opts m
        = Current.deltaMessage sourceAlias targetAlias sourceURL targetURL
            opts' m)
    /\ (isMetadata opts = isMetadata opts' ->
        forall source target,
          Current.deltaSourceTarget source target opts
          = Current.deltaSourceTarget source target opts').
Proof.
  intros opts opts' Ho Hr Hx.
  assert (Hguard : negb (isOverwrite opts) && negb (isFake opts)
                   && negb (activeActive opts)
                   = negb (isOverwrite opts') && negb (isFake opts')
                     && negb (activeActive opts')).
  { unfold mayOverwrite in Ho.
    rewrite <- !negb_orb. f_equal. exact Ho. }
  assert (Hrem : negb (isRemove opts) && negb (isFake opts)
                 = negb (isRemove opts') && negb (isFake opts')).
  { unfold mayRemove in Hr. rewrite <- !negb_orb. f_equal. exact Hr. }
  assert (Hmsg : forall m,
    Current.deltaMessage sourceAlias targetAlias sourceURL targetURL opts m
    = Current.deltaMessage sourceAlias targetAlias sourceURL targetURL opts' m).
  { intros m. unfold Current.deltaMessage.
    rewrite Hguard, Hrem, Hx. reflexivity. }
  split; [exact Hmsg |].
  intros Hmd source target. unfold Current.deltaSourceTarget.
  destruct (mustExpandAlias (withSeparator source)) as [sa su].
  destruct (mustExpandAlias (withSeparator target)) as [ta tu].
  destruct (newClientFromAlias sa su); [reflexivity |].
  destruct (newClientFromAlias ta tu); [reflexivity |].
  rewrite Hmd. apply List.flat_map_ext. intros m.
  unfold Current.deltaMessage. rewrite Hguard, Hrem, Hx. reflexivity.
Qed.

End OrchestratorFlags.

Section OrchestratorStream.

Import Mirror Policy.

Context `{Env}.

Variables sourceAlias targetAlias sourceURL targetURL : string.

Lemma map_flat_map {A B C} (f : B -> C) (g : A -> list B) (l : list A) :
  List.map f (List.flat_map g l)
  = List.flat_map (fun a => List.map f (g a)) l.
Proof.
  induction l as [| a l IH]; simpl; [reflexivity |].
  rewrite List.map_app, IH. reflexivity.
Qed.

Lemma revisions_agree_on_message opts m :
  activeActive opts = false ->
  List.map dropCond
    (Current.deltaMessage sourceAlias targetAlias sourceURL targetURL opts m)
  = Legacy.deltaMessage sourceAlias targetAlias sourceURL targetURL
      (isFake opts) (isOverwrite opts) (isRemove opts) (excludeOptions opts) m.
Proof.
  intros Ha. unfold Current.deltaMessage, Legacy.deltaMessage. rewrite Ha.
  destruct (dmError m); [reflexivity |].
  destruct (matchExcludeOptions _ _); [reflexivity |].
  destruct (matchExcludeOptions _ _); [reflexivity |].
  rewrite andb_true_r.
  destruct (Diff m); try reflexivity;
    try (destruct (negb (isOverwrite opts) && negb (isFake opts));
         reflexivity);
    destruct (negb (isRemove opts) && negb (isFake opts)); reflexivity.
Qed.

(** Without active-active the two revisions of [deltaSourceTarget] send the
    same messages, message for message and for the whole stream; the newer
    one only adds the error condition to its error results. *)
Theorem revisions_agree_without_active_active :
  forall opts,
    activeActive opts = false ->
    (forall m,
        List.map dropCond
          (Current.deltaMessage sourceAlias targetAlias sourceURL targetURL
             opts m)
        = Legacy.deltaMessage sourceAlias targetAlias sourceURL targetURL
            (isFake opts) (isOverwrite opts) (isRemove opts)
            (excludeOptions opts) m)
    /\ (forall source target,
          List.map dropCond (Current.deltaSourceTarget source target opts)
          = Legacy.deltaSourceTarget source target
              (isFake opts) (isOverwrite opts) (isRemove opts)
              (isMetadata opts) (excludeOptions opts)).
Proof.
  intros opts Ha.
  split; [intros m; apply revisions_agree_on_message; exact Ha |].
  intros source target.
  unfold Current.deltaSourceTarget, Legacy.deltaSourceTarget.
  destruct (mustExpandAlias (withSeparator source)) as [sa su].
  destruct (mustExpandAlias (withSeparator target)) as [ta tu].
  destruct (newClientFromAlias sa su); [reflexivity |].
  destruct (newClientFromAlias ta tu); [reflexivity |].
  rewrite map_flat_map. apply List.flat_map_ext. intros m.
  unfold Current.deltaMessage, Legacy.deltaMessage. rewrite Ha.
  destruct (dmError m); [reflexivity |].
  destruct (matchExcludeOptions _ _); [reflexivity |].
  destruct (matchExcludeOptions _ _); [reflexivity |].
  rewrite andb_true_r.
  destruct (Diff m); try reflexivity;
    try (destruct (negb (isOverwrite opts) && negb (isFake opts));
         reflexivity);
    destruct (negb (isRemove opts) && negb (isFake opts)); reflexivity.
Qed.

Lemma current_at_most_one sa ta su tu opts m :
  (length (Current.deltaMessage sa ta su tu opts m) <= 1)%nat.
Proof.
  unfold Current.deltaMessage.
  destruct (dmError m); [simpl; lia |].
  destruct (matchExcludeOptions _ _); [simpl; lia |].
  destruct (matchExcludeOptions _ _); [simpl; lia |].
  destruct (Diff m); simpl; try lia;
    match goal with
    | |- context [if ?b then _ else _] => destruct b; simpl; lia
    end.
Qed.

Lemma flat_map_length_le {A B} (g : A -> list B) (l : list A) :
  (forall a, length (g a) <= 1)%nat ->
  (length (List.flat_map g l) <= length l)%nat.
Proof.
  intros Hg. induction l as [| a l IH]; simpl; [lia |].
  rewrite List.length_app. specialize (Hg a). lia.
Qed.

(** [deltaSourceTarget] sends at most one message per message of the
    difference stream.  When a client cannot be created it sends exactly one
    error result, built from the error of the client, and does not look at
    the difference stream. *)
Theorem at_most_one_message_per_difference :
  forall source target opts,
    let '(sa, su) := root source in
    let '(ta, tu) := root target in
    let out := Current.deltaSourceTarget source target opts in
    (forall m, length (Current.deltaMessage sa ta su tu opts m) <= 1)%nat
    /\ (newClientFromAlias sa su = None ->
        newClientFromAlias ta tu = None ->
        (length out
         <= length (objectDifference su tu (isMetadata opts)))%nat)
    /\ (forall err, newClientFromAlias sa su = Some err ->
          out = [errorResult (Trace err [sa; su]) differInUnknown])
    /\ (forall err, newClientFromAlias sa su = None ->
          newClientFromAlias ta tu = Some err ->
          out = [errorResult (Trace err [ta; tu]) differInUnknown]).
Proof.
  intros source target opts. unfold root, Current.deltaSourceTarget.
  destruct (mustExpandAlias (withSeparator source)) as [sa su].
  destruct (mustExpandAlias (withSeparator target)) as [ta tu].
  split; [intros m; apply current_at_most_one |].
  split; [| split].
  - intros -> ->. apply flat_map_length_le.
    intros m. apply current_at_most_one.
  - intros err ->. reflexivity.
  - intros err -> ->. reflexivity.
Qed.

(** No listing error is swallowed: whatever the flags and the exclude
    patterns, every message of the difference stream that carries an error
    has its error among the messages sent. *)
Theorem listing_errors_are_always_forwarded :
  forall source target opts m e,
    let '(sa, su) := root source in
    let '(ta, tu) := root target in
    newClientFromAlias sa su = None ->
    newClientFromAlias ta tu = None ->
    In m (objectDifference su tu (isMetadata opts)) ->
    dmError m = Some e ->
    In (errorResult e differInUnknown)
      (Current.deltaSourceTarget source target opts).
Proof.
  intros source target opts m e. unfold root, Current.deltaSourceTarget.
  destruct (mustExpandAlias (withSeparator source)) as [sa su].
  destruct (mustExpandAlias (withSeparator target)) as [ta tu].
  intros -> -> Hin He.
  apply List.in_flat_map. exists m. split; [exact Hin |].
  unfold Current.deltaMessage. rewrite He. left. reflexivity.
Qed.

(** Identical entries, type mismatches and unrecognised tags never become a
    task, whatever the flags: an identical pair yields nothing, a type
    mismatch yields the invalid-target error for the target URL and an
    unrecognised tag the unrecognised-type error, unless the message is
    excluded. *)
Theorem no_flag_resolves_type_mismatch :
  forall opts m,
    dmError m = None ->
    let out := Current.deltaMessage sourceAlias targetAlias sourceURL
                 targetURL opts m in
    (Diff m = differInNone -> out = [])
    /\ (Diff m = differInType ->
        out = if excluded sourceURL targetURL (excludeOptions opts) m then []
              else [errorResult (errInvalidTarget (SecondURL m))
                      differInUnknown])
    /\ (Diff m = differInUnknown ->
        out = if excluded sourceURL targetURL (excludeOptions opts) m then []
              else [errorResult
                      (Trace (errUnrecognizedDiffType differInUnknown)
                         [FirstURL m; SecondURL m]) differInUnknown])
    /\ (Diff m = differInNone \/ Diff m = differInType
        \/ Diff m = differInUnknown ->
        forall u, In u out -> isCopyTask u = false /\ isRemoveTask u = false).
Proof.
  intros opts m He out.
  assert (Hout : out
    = if excluded sourceURL targetURL (excludeOptions opts) m then []
      else match Diff m with
           | differInNone => []
           | differInType =>
               [errorResult (errInvalidTarget (SecondURL m)) differInUnknown]
           | differInUnknown =>
               [errorResult
                  (Trace (errUnrecognizedDiffType differInUnknown)
                     [FirstURL m; SecondURL m]) differInUnknown]
           | _ => out
           end).
  { unfold out.
    destruct (excluded sourceURL targetURL (excludeOptions opts) m) eqn:Hx.
    - apply current_excluded; assumption.
    - rewrite current_switch by assumption.
      destruct (Diff m); reflexivity. }
  split; [| split; [| split]].
  - intros Hd. rewrite Hout, Hd. destruct (excluded _ _ _ _); reflexivity.
  - intros Hd. rewrite Hout, Hd. reflexivity.
  - intros Hd. rewrite Hout, Hd. reflexivity.
  - intros Hd u Hin. rewrite Hout in Hin.
    destruct (excluded _ _ _ _); [destruct Hin |].
    destruct Hd as [Hd | [Hd | Hd]]; rewrite Hd in Hin;
      try destruct Hin as [<- | []]; try destruct Hin; split; reflexivity.
Qed.

Lemma matchExcludeOptions_app patterns more suffix :
  matchExcludeOptions (patterns ++ more) suffix
  = matchExcludeOptions patterns suffix || matchExcludeOptions more suffix.
Proof.
  induction patterns as [| q patterns IH]; simpl; [reflexivity |].
  destruct (wildcardMatch q suffix); [reflexivity | exact IH].
Qed.

(** Exclude patterns only ever take operations away: with more patterns a
    difference message yields what it yielded before or nothing, and with
    no pattern at all nothing is excluded.  A message is excluded by a
    longer list exactly when it is excluded by one of its two parts. *)
Theorem more_patterns_never_add_operations :
  forall opts patterns more m,
    let out := Current.deltaMessage sourceAlias targetAlias sourceURL
                 targetURL (withExclude patterns opts) m in
    let out' := Current.deltaMessage sourceAlias targetAlias sourceURL
                  targetURL (withExclude (patterns ++ more) opts) m in
    (out' = out \/ out' = [])
    /\ excluded sourceURL targetURL (patterns ++ more) m
       = excluded sourceURL targetURL patterns m
         || excluded sourceURL targetURL more m
    /\ excluded sourceURL targetURL [] m = false.
Proof.
  intros opts patterns more m out out'.
  assert (Happ : excluded sourceURL targetURL (patterns ++ more) m
                 = excluded sourceURL targetURL patterns m
                   || excluded sourceURL targetURL more m).
  { unfold excluded. rewrite !matchExcludeOptions_app.
    destruct (matchExcludeOptions patterns _),
             (matchExcludeOptions more _),
             (matchExcludeOptions patterns _),
             (matchExcludeOptions more _); reflexivity. }
  split; [| split; [exact Happ | reflexivity]].
  unfold out, out'.
  destruct (dmError m) as [e |] eqn:He.
  { left. unfold Current.deltaMessage. rewrite He. reflexivity. }
  destruct (excluded sourceURL targetURL patterns m) eqn:Hx.
  - left.
    rewrite (current_excluded sourceAlias targetAlias sourceURL targetURL
               (withExclude patterns opts) m He Hx).
    apply current_excluded; [exact He |]. simpl. rewrite Happ. reflexivity.
  - destruct (excluded sourceURL targetURL more m) eqn:Hm.
    + right. apply current_excluded; [exact He |]. simpl. rewrite Happ.
      reflexivity.
    + left.
      rewrite (current_switch sourceAlias targetAlias sourceURL targetURL
                 (withExclude patterns opts) m He Hx).
      rewrite (current_switch sourceAlias targetAlias sourceURL targetURL
                 (withExclude (patterns ++ more) opts) m He)
        by (simpl; rewrite Happ; reflexivity).
      reflexivity.
Qed.

End OrchestratorStream.

Section OrchestratorPaths.

Import Mirror Policy.

Context `{Env}.

Lemma string_length_append (u s : string) :
  String.length (String.append u s)
  = (String.length u + String.length s)%nat.
Proof. induction u as [| c u IH]; simpl; [reflexivity | rewrite IH; reflexivity]. Qed.

Lemma substring_whole (s : string) :
  String.substring 0 (String.length s) s = s.
Proof. induction s as [| c s IH]; simpl; [reflexivity | rewrite IH; reflexivity]. Qed.

Lemma substring_after (u s : string) :
  String.substring (String.length u) (String.length s) (String.append u s) = s.
Proof. induction u as [| c u IH]; simpl; [apply substring_whole | exact IH]. Qed.

Lemma prefix_of_append (u s : string) :
  String.prefix u (String.append u s) = true.
Proof.
  induction u as [| c u IH]; simpl; [destruct s; reflexivity |].
  destruct (ascii_dec c c) as [_ | Hne]; [exact IH | contradiction].
Qed.

Lemma TrimPrefix_append (u s : string) :
  Strings.TrimPrefix (String.append u s) u = s.
Proof.
  unfold Strings.TrimPrefix, Strings.HasPrefix.
  rewrite prefix_of_append, string_length_append.
  replace (String.length u + String.length s - String.length u)%nat
    with (String.length s) by lia.
  apply substring_after.
Qed.

Lemma HasSuffix_append (u s : string) :
  Strings.HasSuffix (String.append u s) s = true.
Proof.
  unfold Strings.HasSuffix. rewrite string_length_append.
  replace (String.length u + String.length s - String.length s)%nat
    with (String.length u) by lia.
  rewrite substring_after, String.eqb_refl, andb_true_r.
  apply Nat.leb_le. lia.
Qed.

(** The mirror keeps relative keys.  An entry found only in the source at
    the source root followed by a key is copied to the target root joined
    with that same key, and whether it is excluded is decided on the key;
    this holds in both revisions and for every root. *)
Theorem relative_key_is_preserved :
  forall sourceAlias targetAlias sourceURL targetURL key m opts,
    FirstURL m = String.append sourceURL key ->
    classified m differInFirst ->
    matchExcludeOptions (excludeOptions opts) key = false ->
    matchExcludeOptions (excludeOptions opts)
      (Strings.TrimPrefix (SecondURL m) targetURL) = false ->
    let copy :=
      {| SourceAlias := sourceAlias; SourceContent := firstContent m;
         TargetAlias := targetAlias;
         TargetContent :=
           Some {| URL := newClientURL (urlJoinPath targetURL key) |};
         Error := None; ErrorCond := differInUnknown |} in
    Current.deltaMessage sourceAlias targetAlias sourceURL targetURL opts m
    = [copy]
    /\ Legacy.deltaMessage sourceAlias targetAlias sourceURL targetURL
         (isFake opts) (isOverwrite opts) (isRemove opts)
         (excludeOptions opts) m
       = [copy].
Proof.
  intros sourceAlias targetAlias sourceURL targetURL key m opts
    Hurl [He Hd] Hk Ht copy.
  unfold Current.deltaMessage, Legacy.deltaMessage, copyOf.
  rewrite He, Hurl, TrimPrefix_append, Hk, Ht, Hd.
  split; reflexivity.
Qed.


End OrchestratorPaths.

(** ** Command-line checks *)

Section MirrorSyntax.

Import Mirror Syntax.

Context `{Env} `{CLI}.

(** [checkMirrorSyntax] leaves through the help screen exactly when the
    number of arguments is not two.  When it goes on, the target is the
    second argument as given; the source is the first argument as given
    when the mirror follows changes (watch, active-active, multi-master),
    and otherwise the source was found to be a folder and the URL returned
    ends with the separator of that folder.  A mirror that follows changes
    never dies in this check. *)
Theorem checkMirrorSyntax_outcomes :
  (checkMirrorSyntax = HelpExit 1 <-> length Args <> 2%nat)
  /\ (forall src tgt reported,
        checkMirrorSyntax = Proceed (src, tgt) reported ->
        exists a,
          Args = [a; tgt]
          /\ (following = true -> src = a)
          /\ (following = false ->
              exists c,
                url2Stat a = inr c /\ IsDir c = true
                /\ Strings.HasSuffix src
                     (Strings.of_rune (contentSeparator c)) = true))
  /\ (following = true -> forall msg, checkMirrorSyntax <> Fatal msg).
Proof.
  unfold checkMirrorSyntax, following.
  destruct Args as [| a [| b [| c rest]]]; simpl.
  1, 2, 4: (split; [split; [intros _; lia | reflexivity] |];
            split; [intros; discriminate | intros; discriminate]).
  set (reported := (_ ++ _)%list).
  replace (negb (Bool "watch") && negb (Bool "active-active")
           && negb (Bool "multi-master"))
    with (negb (Bool "watch" || Bool "active-active" || Bool "multi-master"))
    by (destruct (Bool "watch"), (Bool "active-active"),
                 (Bool "multi-master"); reflexivity).
  destruct (Bool "watch" || Bool "active-active" || Bool "multi-master");
    simpl.
  - split; [split; [discriminate | intros Hl; exfalso; apply Hl; reflexivity] |].
    split; [| intros; discriminate].
    intros src tgt rep Hp. injection Hp as <- <- _.
    exists a. split; [reflexivity |]. split; [reflexivity | discriminate].
  - destruct (url2Stat a) as [err | content] eqn:Hstat.
    + split; [split; [discriminate | intros Hl; exfalso; apply Hl; reflexivity] |].
      split; [intros; discriminate | discriminate].
    + destruct (IsDir content) eqn:Hdir; simpl.
      * split; [split; [discriminate
                       | intros Hl; exfalso; apply Hl; reflexivity] |].
        split; [| discriminate].
        intros src tgt rep Hp. injection Hp as <- <- _.
        exists a. split; [reflexivity |]. split; [discriminate |].
        intros _. exists content. split; [exact Hstat |].
        split; [exact Hdir |].
        match goal with
        | |- Strings.HasSuffix (if Strings.HasSuffix ?u ?s then _ else _) _ = true =>
            destruct (Strings.HasSuffix u s) eqn:Hsuf;
              [exact Hsuf | apply HasSuffix_append]
        end.
      * split; [split; [discriminate
                       | intros Hl; exfalso; apply Hl; reflexivity] |].
        split; [intros; discriminate | discriminate].
Qed.

End MirrorSyntax.

(** ** Configuration check *)

Section ConfigCheck.

Import Config.

Lemma string_append_assoc (a b c : string) :
  String.append (String.append a b) c = String.append a (String.append b c).
Proof. induction a as [| x a IH]; simpl; [reflexivity | rewrite IH; reflexivity]. Qed.

Lemma string_append_nil_r (a : string) : String.append a EmptyString = a.
Proof. induction a as [| x a IH]; simpl; [reflexivity | rewrite IH; reflexivity]. Qed.

Lemma writeErrors_lines errMsgs : forall index errorMsg,
  writeErrors index errMsgs errorMsg
  = String.append errorMsg (lines (List.firstn (11 - index) errMsgs)).
Proof.
  induction errMsgs as [| errMsg rest IH]; intros index errorMsg.
  - simpl. rewrite List.firstn_nil. simpl.
    rewrite string_append_nil_r. reflexivity.
  - simpl. destruct (Nat.ltb_spec 10 index) as [Hgt | Hle].
    + replace (11 - index)%nat with 0%nat by lia. simpl.
      rewrite string_append_nil_r. reflexivity.
    + rewrite IH.
      replace (11 - index)%nat with (S (11 - S index)) by lia.
      simpl. rewrite !string_append_assoc. reflexivity.
Qed.

(** [checkConfig] dies when the configuration cannot be loaded or is not
    valid.  For a configuration that is not valid the message it dies with
    is made of the first eleven error messages, one per line: all of them
    when there are at most eleven, and none past the eleventh.  A valid
    configuration passes whatever messages come with it. *)
Theorem checkConfig_reports_the_first_eleven_errors :
  forall (config : Type) (validate : config -> bool * list string),
    checkConfig None validate = Some "Unable to access configuration file."%string
    /\ (forall cfg errMsgs,
          validate cfg = (false, errMsgs) ->
          checkConfig (Some cfg) validate
          = Some (lines (List.firstn 11 errMsgs))
          /\ ((length errMsgs <= 11)%nat ->
              checkConfig (Some cfg) validate = Some (lines errMsgs)))
    /\ (forall cfg errMsgs,
          validate cfg = (true, errMsgs) ->
          checkConfig (Some cfg) validate = None).
Proof.
  intros config validate.
  split; [reflexivity |]. split.
  - intros cfg errMsgs Hv.
    assert (Hc : checkConfig (Some cfg) validate
                 = Some (lines (List.firstn 11 errMsgs))).
    { unfold checkConfig. rewrite Hv. simpl.
      rewrite writeErrors_lines. reflexivity. }
    split; [exact Hc |].
    intros Hlen. rewrite Hc, List.firstn_all2 by exact Hlen. reflexivity.
  - intros cfg errMsgs Hv. unfold checkConfig. rewrite Hv. reflexivity.
Qed.

End ConfigCheck.

(** ** Bandwidth of a remote target *)

Section Bandwidth.

Import Remote.

(** [getBandwidthInBytes] turns bits into bytes, rounding down.  An empty
    string gives 0 without the parser being asked; an error of the parser
    comes back with the value the parser gave, not divided; otherwise the
    result is an eighth of the parsed value, so it is below 2^61 and its
    conversion to a signed 64-bit limit never wraps. *)
Theorem getBandwidthInBytes_is_an_eighth :
  forall (E : Type) (ParseBytes : string -> Z * option E) bandwidthStr,
    (forall s, 0 <= fst (ParseBytes s) < 2 ^ 64) ->
    let result := getBandwidthInBytes ParseBytes bandwidthStr in
    (bandwidthStr = EmptyString -> result = (0, None))
    /\ (forall e, snd result = Some e ->
          bandwidthStr <> EmptyString /\ result = ParseBytes bandwidthStr)
    /\ (snd result = None ->
        0 <= fst result < 2 ^ 61
        /\ Int.int64 (fst result) = fst result
        /\ (bandwidthStr <> EmptyString ->
            snd (ParseBytes bandwidthStr) = None
            /\ 8 * fst result <= fst (ParseBytes bandwidthStr)
               < 8 * fst result + 8)).
Proof.
  intros E ParseBytes bandwidthStr Hrange result.
  unfold result, getBandwidthInBytes.
  destruct (String.eqb_spec bandwidthStr EmptyString) as [-> | Hne];
    cbn [negb].
  - change (0 / 8) with 0. cbn [fst snd].
    split; [reflexivity |]. split; [discriminate |].
    intros _. split; [lia |]. split; [reflexivity |].
    intros Hne. contradiction.
  - specialize (Hrange bandwidthStr).
    destruct (ParseBytes bandwidthStr) as [bandwidth [e |]]; cbn [fst snd] in *.
    + split; [intros Heq; contradiction |].
      split; [intros e' He'; split; [exact Hne | reflexivity] | discriminate].
    + split; [intros Heq; contradiction |].
      split; [discriminate |]. intros _.
      pose proof (Z.mul_div_le bandwidth 8 ltac:(lia)).
      pose proof (Z.mul_succ_div_gt bandwidth 8 ltac:(lia)).
      assert (Hb : 0 <= bandwidth / 8 < 2 ^ 61) by lia.
      split; [exact Hb |].
      split; [unfold Int.int64; rewrite Z.mod_small by lia; lia |].
      intros _. split; [reflexivity | lia].
Qed.

End Bandwidth.

(** ** Concrete mirrors and command lines *)

Local Open Scope string_scope.

Lemma flags_matter_only_through_what_they_allow_witness :
  @Mirror.Current.deltaMessage (Sample.env []) "src" "dst" "play/src/"
    "play/dst/" (Sample.options true false false false [])
    (Sample.message "play/src/b" "play/dst/b" Mirror.differInSize)
  = @Mirror.Current.deltaMessage (Sample.env []) "src" "dst" "play/src/"
      "play/dst/" (Sample.options false true true false [])
      (Sample.message "play/src/b" "play/dst/b" Mirror.differInSize).
Proof.
  apply (proj1 (@flags_matter_only_through_what_they_allow (Sample.env [])
                  "src" "dst" "play/src/" "play/dst/"
                  (Sample.options true false false false [])
                  (Sample.options false true true false [])
                  eq_refl eq_refl eq_refl)).
Defined.

Lemma revisions_agree_without_active_active_witness :
  List.map Policy.dropCond
    (@Mirror.Current.deltaMessage (Sample.env []) "src" "dst" "play/src/"
       "play/dst/" (Sample.options false false false false [])
       (Sample.message "play/src/b" "play/dst/b" Mirror.differInSize))
  = @Mirror.Legacy.deltaMessage (Sample.env []) "src" "dst" "play/src/"
      "play/dst/" false false false []
      (Sample.message "play/src/b" "play/dst/b" Mirror.differInSize).
Proof.
  apply (proj1 (@revisions_agree_without_active_active (Sample.env [])
                  "src" "dst" "play/src/" "play/dst/"
                  (Sample.options false false false false []) eq_refl)).
Defined.

Lemma listing_errors_are_always_forwarded_witness :
  In (Mirror.errorResult (Mirror.errExternal "listing failed")
        Mirror.differInUnknown)
    (@Mirror.Current.deltaSourceTarget
       (Sample.env [Sample.message "play/src/a" "" Mirror.differInFirst;
                    SampleCLI.failed "play/src/x.tmp"])
       "play/src" "play/dst" (Sample.options false false false false ["*.tmp"])).
Proof.
  apply (@listing_errors_are_always_forwarded
           (Sample.env [Sample.message "play/src/a" "" Mirror.differInFirst;
                        SampleCLI.failed "play/src/x.tmp"])
           "play/src" "play/dst"
           (Sample.options false false false false ["*.tmp"])
           (SampleCLI.failed "play/src/x.tmp")
           (Mirror.errExternal "listing failed")).
  - reflexivity.
  - reflexivity.
  - right. left. reflexivity.
  - reflexivity.
Defined.

Lemma no_flag_resolves_type_mismatch_witness :
  @Mirror.Current.deltaMessage (Sample.env []) "src" "dst" "play/src/"
    "play/dst/" (Sample.options true true true true [])
    (Sample.message "play/src/d" "play/dst/d" Mirror.differInType)
  = [Mirror.errorResult (Mirror.errInvalidTarget "play/dst/d")
       Mirror.differInUnknown].
Proof.
  apply (proj1 (proj2 (@no_flag_resolves_type_mismatch (Sample.env [])
                  "src" "dst" "play/src/" "play/dst/"
                  (Sample.options true true true true [])
                  (Sample.message "play/src/d" "play/dst/d"
                     Mirror.differInType)
                  eq_refl)) eq_refl).
Defined.

Lemma relative_key_is_preserved_witness :
  @Mirror.Current.deltaMessage (Sample.env []) "src" "dst" "play/src/"
    "play/dst/" (Sample.options false false false false ["*.tmp"])
    (Sample.message "play/src/dir/a" "" Mirror.differInFirst)
  = [{| Mirror.SourceAlias := "src";
        Mirror.SourceContent := Some (Sample.content "play/src/dir/a");
        Mirror.TargetAlias := "dst";
        Mirror.TargetContent := Some (Sample.content "play/dst/dir/a");
        Mirror.Error := None; Mirror.ErrorCond := Mirror.differInUnknown |}].
Proof.
  apply (proj1 (@relative_key_is_preserved (Sample.env [])
                  "src" "dst" "play/src/" "play/dst/" "dir/a"
                  (Sample.message "play/src/dir/a" "" Mirror.differInFirst)
                  (Sample.options false false false false ["*.tmp"])
                  eq_refl (conj eq_refl eq_refl) eq_refl eq_refl)).
Defined.

Lemma getBandwidthInBytes_is_an_eighth_witness :
  0 <= fst (Remote.getBandwidthInBytes (E := string)
              (fun _ => (2000000000, None)) "2G") < 2 ^ 61.
Proof.
  apply (proj2 (proj2 (@getBandwidthInBytes_is_an_eighth string
                         (fun _ => (2000000000, None)) "2G"
                         ltac:(intros s; simpl; lia)))).
  reflexivity.
Defined.

(** [mc mirror play/src play/dst]: the source comes back with its
    separator; with [--watch] it comes back as given; with one argument the
    command leaves through the help screen. *)
Example checkMirrorSyntax_runs :
  @Syntax.checkMirrorSyntax (Sample.env [])
    (SampleCLI.cli ["play/src"; "play/dst"] ["force"])
  = Syntax.Proceed ("play/src/", "play/dst") [Syntax.forceAlone]
  /\ @Syntax.checkMirrorSyntax (Sample.env [])
       (SampleCLI.cli ["play/src"; "play/dst"] ["watch"])
     = Syntax.Proceed ("play/src", "play/dst") []
  /\ @Syntax.checkMirrorSyntax (Sample.env [])
       (SampleCLI.cli ["play/src"] [])
     = Syntax.HelpExit 1.
Proof. repeat split. Qed.

(** ** Holds are released exactly once *)

Section Releases.

Import Mirror Parallel Accounting.

Context `{Runtime}.

Local Close Scope string_scope.

(** In every state of a run the gate mirrors the tasks in flight: there are
    as many shared holds as shared tasks on offer or with a worker, and the
    exclusive hold is taken exactly when one barrier task is.  So the
    release a worker performs after sending its result always finds its
    hold: the fatal error of unlocking a mutex that is not locked cannot
    happen, and the worker goes back to waiting. *)
Theorem release_always_finds_its_hold :
  forall p,
    reachable p ->
    readers (barrierSync p) = holds false p
    /\ (writer (barrierSync p) = true <-> holds true p = 1%nat)
    /\ (writer (barrierSync p) = false <-> holds true p = 0%nat)
    /\ (forall i t,
          workers p !! i = Some (Releasing t) ->
          exists p',
            workerRelease i p = Some p'
            /\ workers p' = <[i := Waiting]> (workers p)
            /\ holds (barrier t) p' = pred (holds (barrier t) p)
            /\ holds (negb (barrier t)) p' = holds (negb (barrier t)) p).
Proof.
  intros p Hreach.
  destruct (reachable_gateOk p Hreach) as (Hsh & Hex & Hwr).
  split; [symmetry; exact Hsh |].
  split; [| split].
  - rewrite Hex. destruct (writer (barrierSync p)); split; congruence.
  - rewrite Hex. destruct (writer (barrierSync p)); split; congruence.
  - intros i t Hi.
    pose proof (totalHeld_lookup (barrier t) _ i _ Hi) as Hge.
    simpl in Hge. rewrite weight_same in Hge.
    pose proof (totalHeld_insert (barrier t) _ i _ Waiting Hi) as Hsame.
    pose proof (totalHeld_insert (negb (barrier t)) _ i _ Waiting Hi) as Hoth.
    simpl in Hsame, Hoth. rewrite weight_same in Hsame.
    rewrite weight_other in Hoth.
    unfold workerRelease. rewrite Hi. unfold holds in *.
    destruct (barrier t) eqn:Hb; simpl in *.
    + unfold Unlock.
      destruct (writer (barrierSync p)) eqn:Hw; [| lia].
      eexists. split; [reflexivity |]. simpl.
      split; [reflexivity |]. split; lia.
    + unfold RUnlock.
      destruct (readers (barrierSync p)) eqn:Hr; [lia |].
      eexists. split; [reflexivity |]. simpl.
      split; [reflexivity |]. split; lia.
Qed.

End Releases.

Lemma release_always_finds_its_hold_witness :
  let p := SampleHost.after
             [Parallel.Queue (SampleHost.job false 10) 0;
              Parallel.Receive 0 0; Parallel.Return 0; Parallel.Report 0]
             SampleHost.large in
  Parallel.readers (Parallel.barrierSync p) = Parallel.holds false p.
Proof.
  intros p.
  apply (@release_always_finds_its_hold SampleHost.host p).
  exists (Some (10 * 2 ^ 30)),
    [Parallel.Queue (SampleHost.job false 10) 0;
     Parallel.Receive 0 0; Parallel.Return 0; Parallel.Report 0].
  vm_compute. reflexivity.
Defined.

(** ** Suggestions for a mistyped command *)

Section Suggestions.

Import Suggest.

Local Close Scope string_scope.
Local Open Scope nat_scope.

Lemma ltb_leb a b : String.ltb a b = negb (String.leb b a).
Proof.
  unfold String.ltb, String.leb. rewrite (String.compare_antisym b a).
  destruct (String.compare a b); reflexivity.
Qed.

Lemma leb_refl a : String.leb a a = true.
Proof. unfold String.leb. rewrite compare_refl. reflexivity. Qed.

Lemma leb_trans a b c :
  String.leb a b = true -> String.leb b c = true -> String.leb a c = true.
Proof.
  unfold String.leb. intros Hab Hbc.
  destruct (String.compare a b) eqn:Eab; try discriminate.
  - apply String.compare_eq_iff in Eab. subst b. exact Hbc.
  - destruct (String.compare b c) eqn:Ebc; try discriminate.
    + apply String.compare_eq_iff in Ebc. subst c. rewrite Eab. reflexivity.
    + rewrite (keyLt_trans a b c Eab Ebc). reflexivity.
Qed.

Lemma leb_false a b : String.leb a b = false -> String.leb b a = true.
Proof.
  intros Hf. destruct (String.leb_total a b) as [Ht | Ht]; congruence.
Qed.

Lemma ascending_nth (l : list string) :
  ascendingStrings l ->
  forall i j, i <= j -> j < length l ->
    String.leb (List.nth i l EmptyString) (List.nth j l EmptyString) = true.
Proof.
  induction 1 as [| a l Hl IH Hall]; intros i j Hij Hj; [simpl in Hj; lia |].
  destruct j as [| j].
  - assert (i = 0) by lia. subst i. apply leb_refl.
  - destruct i as [| i]; simpl in *.
    + rewrite List.Forall_forall in Hall. apply Hall.
      apply List.nth_In. lia.
    + apply IH; lia.
Qed.

Lemma ascending_snoc (l : list string) x :
  ascendingStrings l ->
  (forall y, In y l -> String.leb y x = true) ->
  ascendingStrings (l ++ [x]).
Proof.
  induction 1 as [| a l Hl IH Hall]; intros Hx; simpl.
  - constructor; constructor.
  - constructor.
    + apply IH. intros y Hy. apply Hx. right. exact Hy.
    + apply List.Forall_app. split; [exact Hall |].
      constructor; [apply Hx; left; reflexivity | constructor].
Qed.

(** The bisection of [sort.Search] on a test that, once true, stays
    true. *)
Lemma searchLoop_bisects f n :
  (forall a b, a <= b -> b < n -> f a = true -> f b = true) ->
  forall turns i j,
    i <= j -> j <= n -> j - i <= turns ->
    (forall k, k < i -> f k = false) ->
    (forall k, j <= k -> k < n -> f k = true) ->
    let r := searchLoop turns f i j in
    i <= r <= j
    /\ (forall k, k < r -> f k = false)
    /\ (forall k, r <= k -> k < n -> f k = true).
Proof.
  intros Hmono. induction turns as [| turns IH]; intros i j Hij Hjn Hfuel Hlow Hup.
  - simpl. assert (i = j) by lia. subst j.
    split; [lia |]. split; assumption.
  - simpl. destruct (Nat.ltb_spec i j) as [Hlt | Hge].
    + assert (Hh : i <= Nat.div2 (i + j) /\ Nat.div2 (i + j) < j).
      { rewrite Nat.div2_div. split.
        - apply Nat.div_le_lower_bound; lia.
        - apply Nat.Div0.div_lt_upper_bound; lia. }
      set (h := Nat.div2 (i + j)) in *.
      destruct (f h) eqn:Hf; simpl.
      * destruct (IH i h) as (Hr & Hl & Hu); try lia; try assumption.
        { intros k Hk Hkn. apply (Hmono h k); [lia | lia | exact Hf]. }
        split; [lia |]. split; assumption.
      * destruct (IH (h + 1) j) as (Hr & Hl & Hu); try lia; try assumption.
        { intros k Hk. destruct (f k) eqn:Hfk; [| reflexivity].
          rewrite (Hmono k h) in Hf; [discriminate | lia | lia | exact Hfk]. }
        split; [lia |]. split; assumption.
    + assert (i = j) by lia. subst j.
      split; [lia |]. split; assumption.
Qed.

(** On an ascending list the bisection answers whether some element is at
    or above the value. *)
Lemma SearchStrings_finds (a : list string) x :
  ascendingStrings a ->
  (SearchStrings a x <? length a) = List.existsb (String.leb x) a.
Proof.
  intros Hasc. unfold SearchStrings, Search.
  set (f := fun i => negb (String.ltb (List.nth i a EmptyString) x)).
  assert (Hf : forall i, f i = String.leb x (List.nth i a EmptyString)).
  { intros i. unfold f. rewrite ltb_leb, negb_involutive. reflexivity. }
  assert (Hmono : forall i j, i <= j -> j < length a ->
                              f i = true -> f j = true).
  { intros i j Hij Hj. rewrite !Hf. intros Hi.
    eapply leb_trans; [exact Hi | apply ascending_nth; assumption]. }
  destruct (searchLoop_bisects f (length a) Hmono (length a) 0 (length a))
    as (Hr & Hlow & Hup); try lia.
  set (r := searchLoop (length a) f 0 (length a)) in *.
  destruct (Nat.ltb_spec r (length a)) as [Hlt | Hge].
  - symmetry. apply List.existsb_exists.
    exists (List.nth r a EmptyString). split; [apply List.nth_In; exact Hlt |].
    rewrite <- Hf. apply Hup; lia.
  - symmetry. apply not_true_iff_false. intros Hex.
    apply List.existsb_exists in Hex as (y & Hin & Hy).
    destruct (List.In_nth a y EmptyString Hin) as (k & Hk & Hnth).
    assert (Hfk : f k = false) by (apply Hlow; lia).
    rewrite Hf, Hnth, Hy in Hfk. discriminate.
Qed.

Lemma insertString_In x l y :
  In y (insertString x l) <-> y = x \/ In y l.
Proof.
  induction l as [| z l IH]; simpl.
  - split; [intros [<- | []]; auto | intros [-> | []]; auto].
  - destruct (String.leb x z); simpl; [| rewrite IH]; intuition congruence.
Qed.

Lemma insertString_ascending x l :
  ascendingStrings l -> ascendingStrings (insertString x l).
Proof.
  induction 1 as [| z l Hl IH Hall]; simpl.
  - constructor; constructor.
  - destruct (String.leb x z) eqn:Hxz.
    + constructor; [constructor; assumption |].
      constructor; [exact Hxz |].
      rewrite List.Forall_forall in *. intros y Hy.
      eapply leb_trans; [exact Hxz | apply Hall; exact Hy].
    + constructor; [exact IH |].
      rewrite List.Forall_forall in *. intros y Hy.
      apply insertString_In in Hy as [-> | Hy];
        [apply leb_false; exact Hxz | apply Hall; exact Hy].
Qed.

Lemma sortStrings_sorts l :
  ascendingStrings (sortStrings l)
  /\ forall y, In y (sortStrings l) <-> In y l.
Proof.
  induction l as [| x l [IHs IHi]]; simpl.
  - split; [constructor | tauto].
  - split; [apply insertString_ascending; exact IHs |].
    intros y. rewrite insertString_In, IHi. intuition congruence.
Qed.

Context `{Commands}.

Lemma consider_scans command closest value :
  ascendingStrings closest ->
  consider command closest value = considerByScan command closest value
  /\ ascendingStrings (consider command closest value).
Proof.
  intros Hasc. unfold consider, considerByScan.
  rewrite (SearchStrings_finds closest value Hasc).
  split; [reflexivity |].
  destruct (List.existsb (String.leb value) closest) eqn:Hex; [exact Hasc |].
  destruct (DamerauLevenshteinDistance command value <? 2)%Z; [| exact Hasc].
  apply ascending_snoc; [exact Hasc |].
  intros y Hy. apply leb_false.
  destruct (String.leb value y) eqn:Hvy; [| reflexivity].
  assert (Htrue : List.existsb (String.leb value) closest = true).
  { apply List.existsb_exists. exists y. split; assumption. }
  congruence.
Qed.

Lemma consider_cases command closest value :
  ascendingStrings closest ->
  consider command closest value = closest
  \/ (consider command closest value = closest ++ [value]
      /\ (DamerauLevenshteinDistance command value < 2)%Z
      /\ forall y, In y closest -> String.ltb y value = true).
Proof.
  intros Hasc. unfold consider.
  rewrite (SearchStrings_finds closest value Hasc).
  destruct (List.existsb (String.leb value) closest) eqn:Hex; [left; reflexivity |].
  destruct (Z.ltb_spec (DamerauLevenshteinDistance command value) 2)
    as [Hclose | Hfar]; [right | left; reflexivity].
  split; [reflexivity |]. split; [exact Hclose |].
  intros y Hy. rewrite ltb_leb.
  destruct (String.leb value y) eqn:Hvy; [| reflexivity].
  assert (Htrue : List.existsb (String.leb value) closest = true).
  { apply List.existsb_exists. exists y. split; assumption. }
  congruence.
Qed.

Lemma walk_adds_only_above command walk : forall base,
  ascendingStrings base ->
  exists added,
    List.fold_left (consider command) walk base = base ++ added
    /\ List.fold_left (consider command) walk base
       = List.fold_left (considerByScan command) walk base
    /\ ascendingStrings (base ++ added)
    /\ forall v, In v added ->
         In v walk
         /\ (DamerauLevenshteinDistance command v < 2)%Z
         /\ forall y, In y base -> String.ltb y v = true.
Proof.
  induction walk as [| value walk IH]; intros base Hasc.
  - exists []. simpl. rewrite List.app_nil_r.
    repeat split; try assumption; contradiction.
  - simpl.
    destruct (consider_scans command base value Hasc) as [Hscan Hasc'].
    rewrite <- Hscan.
    destruct (IH _ Hasc') as (added & Hres & Heq & Hsorted & Hadded).
    destruct (consider_cases command base value Hasc)
      as [Hsame | (Hnew & Hclose & Habove)].
    + rewrite Hsame in *.
      exists added. split; [exact Hres |]. split; [exact Heq |].
      split; [exact Hsorted |].
      intros v Hv. destruct (Hadded v Hv) as (Hw & Hd & Hy).
      split; [right; exact Hw |]. split; assumption.
    + rewrite Hnew in *.
      exists (value :: added).
      rewrite <- List.app_assoc in Hres, Hsorted. simpl in Hres, Hsorted.
      split; [exact Hres |]. split; [exact Heq |].
      split; [exact Hsorted |].
      intros v [<- | Hv].
      * split; [left; reflexivity |]. split; [exact Hclose |]. exact Habove.
      * destruct (Hadded v Hv) as (Hw & Hd & Hy).
        split; [right; exact Hw |]. split; [exact Hd |].
        intros y Hin. apply Hy. apply List.in_or_app. left. exact Hin.
Qed.

(** [findClosestCommands] returns its suggestions in ascending order: the
    commands that start with what was typed, sorted, followed by commands
    of the trie at distance below 2, each above every suggestion before it.
    The bisection it uses to skip commands already suggested skips a
    command as soon as some suggestion is at or above it, so the loop does
    exactly what the plain scan for such a suggestion would do. *)
Theorem findClosestCommands_suggestions :
  forall command,
    let result := findClosestCommands command in
    ascendingStrings result
    /\ result
       = List.fold_left (considerByScan command) Walk
           (sortStrings (PrefixMatch command))
    /\ (forall v, In v (PrefixMatch command) -> In v result)
    /\ exists added,
         result = sortStrings (PrefixMatch command) ++ added
         /\ forall v, In v added ->
              In v Walk
              /\ (DamerauLevenshteinDistance command v < 2)%Z
              /\ forall y, In y (PrefixMatch command) ->
                           String.ltb y v = true.
Proof.
  intros command result.
  destruct (sortStrings_sorts (PrefixMatch command)) as [Hasc Hin].
  destruct (walk_adds_only_above command Walk _ Hasc)
    as (added & Hres & Heq & Hsorted & Hadded).
  fold (findClosestCommands command) in Hres, Heq. fold result in Hres, Heq.
  split; [rewrite Hres; exact Hsorted |].
  split; [exact Heq |].
  split.
  - intros v Hv. rewrite Hres. apply List.in_or_app. left.
    apply Hin. exact Hv.
  - exists added. split; [exact Hres |].
    intros v Hv. destruct (Hadded v Hv) as (Hw & Hd & Hy).
    split; [exact Hw |]. split; [exact Hd |].
    intros y Hyin. apply Hy. apply Hin. exact Hyin.
Qed.

End Suggestions.

(** Typing [sl] with commands [ls], [rm], [cp], [sql]: [sql] is not a prefix
    match, and of the commands at distance 1 only those above the
    suggestions made so far are kept, so [cp] is passed over once [rm] is
    in. *)
Example findClosestCommands_runs :
  @Suggest.findClosestCommands
    (Suggest.trie ["ls"; "rm"; "cp"; "sql"]%string) "sl"%string
  = ["ls"; "rm"]%string.
Proof. reflexivity. Qed.
